(** * ElementsWrapper (lib/wrapper.js, release 1.1.0): a shallow embedding

    The wrapper class of [@lumjs/web-core-extra] is modelled method by method.
    JavaScript values are an inductive type, DOM nodes are trees carrying an
    object reference (so that identity and structure can be told apart),
    option objects are finite maps from property names to values together
    with the symbol-keyed "compiled" marker, and every method runs in a small
    state-and-exception monad over a realm made of an allocation counter and
    a log of the calls made to the collaborators of [@lumjs/web-core]
    (selector engine, query engine, content inserter, callbacks).

    The collaborators themselves are not part of this package; they are the
    fields of the [WebCore] interface, and the theorems of the sections hold
    for all of its implementations.  A small concrete implementation lives in
    [Fixture]; the methods are run on it at the end of the file. *)

From Stdlib Require Import ZArith Lia Ascii.
From stdpp Require Import base option list strings gmap.

Set Warnings "-register-all".
Open Scope string_scope.
Open Scope list_scope.
Open Scope nat_scope.

(** ** DOM nodes *)

Inductive NodeKind :=
| ElementKind (tagName : string)
| TextKind (data : string).

(** A node is a tree; [nodeRef] is the identity of the object. *)
Inductive Node := mkNode {
  nodeRef : nat;
  nodeKind : NodeKind;
  attributes : list (string * string);
  childNodes : list Node
}.

Definition isElementNode (n : Node) : bool :=
  match nodeKind n with ElementKind _ => true | TextKind _ => false end.

(** [node.children]: the element children, in document order. *)
Definition elementChildren (n : Node) : list Node :=
  filter (fun c => isElementNode c = true) (childNodes n).

(** The structure of a node with the identities erased. *)
Inductive Shape := mkShape {
  shapeKind : NodeKind;
  shapeAttributes : list (string * string);
  shapeChildren : list Shape
}.

Fixpoint shapeOf (n : Node) : Shape :=
  mkShape (nodeKind n) (attributes n) (map shapeOf (childNodes n)).

(** All object references occurring in a node and below it. *)
Fixpoint refsOf (n : Node) : list nat :=
  nodeRef n :: flat_map refsOf (childNodes n).

(** [cloneNode(true)]: a deep copy whose nodes are all new objects, taking
    their references from the counter [next] (pre-order). *)
Fixpoint cloneNode (n : Node) (next : nat) : Node * nat :=
  let fix cloneAll (l : list Node) (next : nat) : list Node * nat :=
    match l with
    | [] => ([], next)
    | c :: l' =>
        let '(c', next1) := cloneNode c next in
        let '(l'', next2) := cloneAll l' next1 in
        (c' :: l'', next2)
    end in
  let '(kids, next') := cloneAll (childNodes n) (S next) in
  (mkNode next (nodeKind n) (attributes n) kids, next').

Fixpoint cloneNodes (l : list Node) (next : nat) : list Node * nat :=
  match l with
  | [] => ([], next)
  | c :: l' =>
      let '(c', next1) := cloneNode c next in
      let '(l'', next2) := cloneNodes l' next1 in
      (c' :: l'', next2)
  end.

(** ** JavaScript values *)

(** The classes that can stand on the right of [instanceof]. *)
Inductive JSClass :=
| ClsObject | ClsFunction | ClsArray
| ClsNode | ClsElement | ClsText | ClsNodeList | ClsHTMLCollection.

Inductive CollKind := KArray | KNodeList | KHTMLCollection.

Inductive JSValue :=
| VUndefined
| VNull
| VBool (b : bool)
| VNum (z : Z)                 (* integral numbers *)
| VStr (s : string)
| VFun (f : nat)               (* an ordinary function, named by a number *)
| VClass (c : JSClass)         (* a built-in constructor *)
| VObject (o : nat)            (* an opaque plain object *)
| VNode (n : Node)
| VColl (k : CollKind) (items : list JSValue).

Inductive JSType := TUndefined | TObject | TBoolean | TNumber | TString | TFunction.

Definition typeof (v : JSValue) : JSType :=
  match v with
  | VUndefined => TUndefined
  | VNull | VObject _ | VNode _ | VColl _ _ => TObject
  | VBool _ => TBoolean
  | VNum _ => TNumber
  | VStr _ => TString
  | VFun _ | VClass _ => TFunction
  end.

Definition isType (t u : JSType) : bool :=
  match t, u with
  | TUndefined, TUndefined | TObject, TObject | TBoolean, TBoolean
  | TNumber, TNumber | TString, TString | TFunction, TFunction => true
  | _, _ => false
  end.

(** The type names of [core.types]. *)
Definition S_ := TString.
Definition N_ := TNumber.
Definition F_ := TFunction.

Definition truthy (v : JSValue) : bool :=
  match v with
  | VUndefined | VNull => false
  | VBool b => b
  | VNum z => negb (z =? 0)%Z
  | VStr s => negb (String.eqb s "")
  | _ => true
  end.

(** [a ?? b] *)
Definition coalesce (a b : JSValue) : JSValue :=
  match a with VUndefined | VNull => b | _ => a end.

(** A parameter with a default value: the default applies to [undefined]. *)
Definition defaultTo (a d : JSValue) : JSValue :=
  match a with VUndefined => d | _ => a end.

Definition classInstance (v : JSValue) (c : JSClass) : bool :=
  match v, c with
  | VNode n, ClsElement => isElementNode n
  | VNode n, ClsText => negb (isElementNode n)
  | VNode _, (ClsNode | ClsObject) => true
  | VColl KArray _, (ClsArray | ClsObject) => true
  | VColl KNodeList _, (ClsNodeList | ClsObject) => true
  | VColl KHTMLCollection _, (ClsHTMLCollection | ClsObject) => true
  | VObject _, ClsObject => true
  | (VFun _ | VClass _), (ClsFunction | ClsObject) => true
  | _, _ => false
  end.

(** ** Errors and completions *)

Inductive JSError :=
| TypeError (msg : string)
| ReferenceError (msg : string)
| Error (msg : string).

Inductive Completion (A : Type) :=
| Normal (a : A)
| Throw (e : JSError).
Arguments Normal {A} a.
Arguments Throw {A} e.

(** [v instanceof ct].  Ordinary functions have a prototype that no modelled
    value inherits from; a right-hand side that is not callable is a
    TypeError. *)
Definition instanceOf (v ct : JSValue) : Completion bool :=
  match ct with
  | VClass c => Normal (classInstance v c)
  | VFun _ => Normal false
  | _ => Throw (TypeError "Right-hand side of 'instanceof' is not callable")
  end.

(** [v.length]: [None] stands for [undefined]. *)
Definition getLength (v : JSValue) : Completion (option nat) :=
  match v with
  | VUndefined | VNull => Throw (TypeError "Cannot read properties of undefined")
  | VColl _ items => Normal (Some (length items))
  | VStr s => Normal (Some (String.length s))
  | _ => Normal None
  end.

(** [v[i]] for a number [i]. *)
Definition getIndex (v : JSValue) (i : Z) : Completion JSValue :=
  match v with
  | VUndefined | VNull => Throw (TypeError "Cannot read properties of undefined")
  | VColl _ items =>
      Normal (if (i <? 0)%Z then VUndefined
              else default VUndefined (items !! Z.to_nat i))
  | VStr s =>
      Normal (if (i <? 0)%Z then VUndefined
              else match String.get (Z.to_nat i) s with
                   | Some c => VStr (String c EmptyString)
                   | None => VUndefined
                   end)
  | _ => Normal VUndefined
  end.

(** [v.children] *)
Definition getChildren (v : JSValue) : Completion JSValue :=
  match v with
  | VUndefined | VNull => Throw (TypeError "Cannot read properties of undefined")
  | VNode n =>
      Normal (if isElementNode n
              then VColl KHTMLCollection (map VNode (elementChildren n))
              else VUndefined)
  | _ => Normal VUndefined
  end.

Fixpoint stringChars (s : string) : list JSValue :=
  match s with
  | EmptyString => []
  | String c s' => VStr (String c EmptyString) :: stringChars s'
  end.

(** The values visited by [for (const x of v)]. *)
Definition iterate (v : JSValue) : Completion (list JSValue) :=
  match v with
  | VColl _ items => Normal items
  | VStr s => Normal (stringChars s)
  | _ => Throw (TypeError "value is not iterable")
  end.

(** ** Option objects *)

(** A plain object used as a bag of options: its string-keyed properties and
    whether it carries the [WRAPPER_OPTS] symbol property (which is only ever
    set to [true]). *)
Record Options := mkOptions {
  props : gmap string JSValue;
  WRAPPER_OPTS : bool
}.

(** [o.name] *)
Definition prop (o : Options) (name : string) : JSValue :=
  default VUndefined (props o !! name).

(** [Object.assign({}, base, local)]: own enumerable properties of [local],
    symbol-keyed ones included, are written over those of [base]. *)
Definition assign (base : Options) (local : option Options) : Options :=
  match local with
  | Some l => mkOptions (props l ∪ props base) (WRAPPER_OPTS l || WRAPPER_OPTS base)
  | None => base
  end.

(** ** Wrapper instances *)

(** The own properties that the constructor defines on an instance, and the
    identity of the instance. *)
Record Wrapper := mkWrapper {
  wrapperRef : nat;
  _wrapped : JSValue;
  options : Options;
  wraps : JSValue;
  isCollection : bool;
  isValid : bool
}.

(** ** The realm: allocation and the calls made to the collaborators *)

(** An argument of [query(...args)]: an option object or any other value. *)
Inductive QArg :=
| ArgOptions (o : Options)
| ArgValue (v : JSValue).

(** The [options.parse ?? options] handed to the markup parser. *)
Inductive ParseOpts :=
| ParseValue (v : JSValue)
| ParseOptions (o : Options).

(** What [Q.findWith] returns: the hit and a diagnostics record. *)
Record FindResult := mkFindResult {
  found : JSValue;
  diagnostics : nat
}.

Inductive Event :=
| CallQuerySelector (target : Node) (selector : string)
| CallQuerySelectorAll (target : Node) (selector : string)
| CallFind (target : JSValue) (args : list QArg)
| CallFindWith (target : JSValue) (args : list QArg)
| CallAddContent (target content pos : JSValue)
| CallAddHTML (target html pos : JSValue)
| CallAddText (target text pos : JSValue)
| CallFunction (fn thisArg : JSValue) (index : nat) (node : JSValue) (wrapper : nat)
| ConsoleError.

Record Realm := mkRealm {
  nextRef : nat;
  trace : list Event
}.

Definition M (A : Type) : Type := Realm -> Completion A * Realm.

Definition ret {A} (a : A) : M A := fun st => (Normal a, st).

Definition throw {A} (e : JSError) : M A := fun st => (Throw e, st).

Definition bind {A B} (m : M A) (k : A -> M B) : M B :=
  fun st =>
    match m st with
    | (Normal a, st') => k a st'
    | (Throw e, st') => (Throw e, st')
    end.

Declare Scope js_scope.
Delimit Scope js_scope with js.
Notation "'let*' x ':=' m 'in' k" := (bind m (fun x => k))
  (at level 10, x name, m at level 100, k at level 200, only parsing) : js_scope.
Open Scope js_scope.

(** A pure step that may throw. *)
Definition lift {A} (c : Completion A) : M A := fun st => (c, st).

(** A new object reference. *)
Definition fresh : M nat :=
  fun st => (Normal (nextRef st), mkRealm (S (nextRef st)) (trace st)).

(** Record a call to a collaborator. *)
Definition emit (e : Event) : M unit :=
  fun st => (Normal tt, mkRealm (nextRef st) (trace st ++ [e])).

(** [content.cloneNode(true)] *)
Definition cloneDeep (n : Node) : M Node :=
  fun st => let '(c, next) := cloneNode n (nextRef st) in
            (Normal c, mkRealm next (trace st)).

(** [for (const x of l) body(x)] *)
Fixpoint forEach {A} (l : list A) (body : A -> M unit) : M unit :=
  match l with
  | [] => ret tt
  | x :: l' => let* _ := body x in forEach l' body
  end.

(** A loop that pushes onto an array: the pushes of every iteration, in
    order. *)
Fixpoint collect {A B} (l : list A) (body : A -> M (list B)) : M (list B) :=
  match l with
  | [] => ret []
  | x :: l' => let* ys := body x in let* zs := collect l' body in ret (ys ++ zs)
  end.

(** ** The collaborators of [@lumjs/web-core] and of the host *)

Class WebCore := {
  (** [VALID_TAG.test(s)] *)
  VALID_TAG : string -> bool;
  (** [parseHTML(s, opts)], given the next free reference; returns the
      parsed value and the next free reference. *)
  parseHTML : string -> ParseOpts -> nat -> JSValue * nat;
  (** [POS.LAST] *)
  POS_LAST : JSValue;
  (** [U.isCollection(what, ofClass)]; the class is optional. *)
  U_isCollection : JSValue -> option JSValue -> bool;
  (** [node.querySelector(sel)] and [node.querySelectorAll(sel)] of an
      element, for a well-formed selector. *)
  querySelector : Node -> string -> option Node;
  querySelectorAll : Node -> string -> list Node;
  (** [Q.find(node, ...args)] and [Q.findWith(node, ...args)] *)
  Q_find : JSValue -> list QArg -> JSValue;
  Q_findWith : JSValue -> list QArg -> FindResult;
  (** [fn.call(thisArg, index, node, wrapper)] *)
  callFunction : JSValue -> JSValue -> nat -> JSValue -> Wrapper -> Completion JSValue;
  (** What the free identifier [node] is bound to in the global scope, if
      it is bound at all. *)
  globalNode : option JSValue
}.

Section ElementsWrapper.

Context `{WebCore}.

(** *** constructor *)

(** [document.createElement(tag)] *)
Definition createElement (tag : string) : M JSValue :=
  let* r := fresh in ret (VNode (mkNode r (ElementKind tag) [] [])).

Definition parse (html : string) (opts : ParseOpts) : M JSValue :=
  fun st => let '(v, next) := parseHTML html opts (nextRef st) in
            (Normal v, mkRealm next (trace st)).

(** [wraps.length === 1] *)
Definition lengthIs (v : JSValue) (n : nat) : Completion bool :=
  match getLength v with
  | Normal (Some len) => Normal (Nat.eqb len n)
  | Normal None => Normal false
  | Throw e => Throw e
  end.

(** [wraps.length > 0] *)
Definition lengthPositive (v : JSValue) : Completion bool :=
  match getLength v with
  | Normal (Some len) => Normal (Nat.ltb 0 len)
  | Normal None => Normal false
  | Throw e => Throw e
  end.

(** The body of [constructor(wraps, options={})], once the default of the
    second parameter has been applied. *)
Definition construct (wraps0 : JSValue) (options : Options) : M Wrapper :=
  let ct := coalesce (prop options "nodeClass") (VClass ClsElement) in
  let ss := coalesce (prop options "separateSingle") (VBool true) in
  let* this := fresh in
  let* wraps1 :=
    (match wraps0 with
     | VStr s =>
         if VALID_TAG s then createElement s
         else
           let parseOpts :=
             match prop options "parse" with
             | VUndefined | VNull => ParseOptions options
             | v => ParseValue v
             end in
           parse s parseOpts
     | _ => ret wraps0
     end) in
  let isCollection0 := U_isCollection wraps1 (Some ct) in
  let* single :=
    (if truthy ss && isCollection0 then lift (lengthIs wraps1 1) else ret false) in
  let* wraps2 := (if single then lift (getIndex wraps1 0) else ret wraps1) in
  let isCollection1 := if single then false else isCollection0 in
  let* nonEmpty := (if isCollection1 then lift (lengthPositive wraps2) else ret false) in
  let* isValid := (if nonEmpty then ret true else lift (instanceOf wraps2 ct)) in
  ret (mkWrapper this wraps0 options wraps2 isCollection1 isValid).

(** [new ElementsWrapper(wraps, options)], and [wrap(wraps, options)] of
    index.js, which is the same call. *)
Definition newWrapper (wraps : JSValue) (options : option Options) : M Wrapper :=
  construct wraps (default (mkOptions ∅ false) options).

Definition wrap (wraps : JSValue) (options : option Options) : M Wrapper :=
  newWrapper wraps options.

(** *** getOptions *)

(** [isObj(localOpts) && localOpts[WRAPPER_OPTS] && !recompile] *)
Definition alreadyCompiled (localOpts : option Options) (recompile : JSValue) : bool :=
  match localOpts with
  | Some l => WRAPPER_OPTS l && negb (truthy recompile)
  | None => false
  end.

Definition getOptions (this : Wrapper) (localOpts : option Options)
    (recompile mark : JSValue) : Options :=
  let recompile := defaultTo recompile (prop (options this) "recompileOptions") in
  let mark := defaultTo mark (VBool true) in
  if alreadyCompiled localOpts recompile then
    match localOpts with Some l => l | None => options this end
  else
    let compiledOpts := assign (options this) localOpts in
    if truthy mark then mkOptions (props compiledOpts) true else compiledOpts.

(** *** _make *)

Definition _make (this : Wrapper) (wrap : JSValue) (opts : option Options) : M Wrapper :=
  let options := getOptions this opts (VBool true) (VBool false) in
  construct wrap options.

(** *** children *)

(** The inner loop of the expanding branch: [for (const child of
    node.children) children.push(child)]. *)
Definition childrenOf (node : JSValue) : M (list JSValue) :=
  let* kids := lift (getChildren node) in
  lift (iterate kids).

Definition children (this : Wrapper) : M Wrapper :=
  if negb (isValid this) then ret this
  else
    let makeOpts :=
      mkOptions
        (<["separateSingle" := VBool false]>
           (<["expandChildren" := prop (options this) "expandChildren"]> ∅))
        false in
    if isCollection this then
      if truthy (prop (options this) "expandChildren") then
        let* nodes := lift (iterate (wraps this)) in
        let* kids := collect nodes childrenOf in
        _make this (VColl KArray kids) (Some makeOpts)
      else ret this
    else
      let* kids := lift (getChildren (wraps this)) in
      _make this kids (Some makeOpts).

(** *** get *)

(** What a lookup returns: a wrapper built by [_make], or the raw value. *)
Inductive Returned :=
| AsWrapper (w : Wrapper)
| AsValue (v : JSValue).

(** The returned value together with the [$findWith] and [$queryOptions]
    properties that [query()] defines on it when details are requested. *)
Record QueryReturn := mkQueryReturn {
  retVal : Returned;
  findWith : option (list FindResult);
  queryOptions : option Options
}.

Definition plain (r : Returned) : QueryReturn := mkQueryReturn r None None.

(** [node instanceof Element] *)
Definition asElement (v : JSValue) : option Node :=
  match v with
  | VNode n => if isElementNode n then Some n else None
  | _ => None
  end.

(** [target.querySelector(query)]; only elements have the method. *)
Definition selectOne (target : JSValue) (query : string) : M JSValue :=
  match asElement target with
  | Some n =>
      let* _ := emit (CallQuerySelector n query) in
      ret (match querySelector n query with
           | Some hit => VNode hit
           | None => VNull
           end)
  | None => throw (TypeError "querySelector is not a function")
  end.

(** [target.querySelectorAll(query)] *)
Definition selectAll (target : JSValue) (query : string) : M (list JSValue) :=
  match asElement target with
  | Some n =>
      let* _ := emit (CallQuerySelectorAll n query) in
      ret (map VNode (querySelectorAll n query))
  | None => throw (TypeError "querySelectorAll is not a function")
  end.

(** The selector loop of [get()] over a collection: [elem] starts out
    undefined and the loop breaks at the first truthy match. *)
Fixpoint getFirst (nodes : list JSValue) (query : string) : M JSValue :=
  match nodes with
  | [] => ret VUndefined
  | node :: rest =>
      match asElement node with
      | Some _ =>
          let* subres := selectOne node query in
          if truthy subres then ret subres else getFirst rest query
      | None => getFirst rest query
      end
  end.

(** The result of a lookup, wrapped or raw. *)
Definition wrapResult (this : Wrapper) (wrap : bool) (result : JSValue) : M Returned :=
  if wrap then let* w := _make this result None in ret (AsWrapper w)
  else ret (AsValue result).

(** *** query *)

(** [isObj(v)] of [core.types] *)
Definition isObj (v : JSValue) : bool :=
  match v with
  | VObject _ | VNode _ | VColl _ _ => true
  | _ => false
  end.

(** One call of the engine, with or without details. *)
Definition engine (withInfo : bool) (node : JSValue) (args : list QArg)
    : M (JSValue * list FindResult) :=
  if withInfo then
    let* _ := emit (CallFindWith node args) in
    let retValue := Q_findWith node args in
    ret (found retValue, [retValue])
  else
    let* _ := emit (CallFind node args) in
    ret (Q_find node args, []).

(** The body of the collection loop of [query()]: the hits pushed onto
    [results] and the records pushed onto [details] for one member. *)
Definition queryMember (withInfo : bool) (args : list QArg) (node : JSValue)
    : M (list JSValue * list FindResult) :=
  match asElement node with
  | Some _ =>
      let* r := engine withInfo node args in
      let '(subres, details) := r in
      if truthy subres then
        match asElement subres with
        | Some _ => ret ([subres], details)
        | None =>
            if U_isCollection subres None then
              let* subnodes := lift (iterate subres) in
              ret (subnodes, details)
            else ret ([], details)
        end
      else ret ([], details)
  | None => ret ([], [])
  end.

Fixpoint queryMembers (withInfo : bool) (args : list QArg) (nodes : list JSValue)
    : M (list JSValue * list FindResult) :=
  match nodes with
  | [] => ret ([], [])
  | node :: rest =>
      let* r1 := queryMember withInfo args node in
      let* r2 := queryMembers withInfo args rest in
      ret (r1.1 ++ r2.1, r1.2 ++ r2.2)
  end.

(** [def(retVal, name, {value})] on a returned value: defining a property
    needs an object. *)
Definition defOn (r : Returned) : Completion unit :=
  match r with
  | AsWrapper _ => Normal tt
  | AsValue v =>
      if isObj v || isType (typeof v) F_ then Normal tt
      else Throw (TypeError "Object.defineProperty called on non-object")
  end.

Definition query (this : Wrapper) (args : list QArg) : M QueryReturn :=
  let invalidOpts := match args with [] => true | _ => false end in
  let '(passed, args) :=
    match args with
    | ArgOptions o :: rest => if WRAPPER_OPTS o then (Some o, rest) else (None, args)
    | _ => (None, args)
    end in
  let options :=
    match passed with
    | Some o => o
    | None => getOptions this None VUndefined VUndefined
    end in
  let wrap := truthy (coalesce (prop options "wrapQueries") (VBool true)) in
  let withInfo := truthy (coalesce (prop options "queryDetails") (VBool false)) in
  let args :=
    if isObj (prop options "getNested")
    then args ++ [ArgValue (prop options "getNested")] else args in
  let* r :=
    (if invalidOpts || negb (isValid this) then ret (VNull, [])
     else if isCollection this then
       let* nodes := lift (iterate (wraps this)) in
       let* r := queryMembers withInfo args nodes in
       ret (VColl KArray r.1, r.2)
     else engine withInfo (wraps this) args) in
  let '(results, details) := r in
  let* retVal := wrapResult this wrap results in
  if withInfo then
    let* _ := lift (defOn retVal) in
    ret (mkQueryReturn retVal (Some details) (Some options))
  else ret (plain retVal).

Definition get (this : Wrapper) (q : JSValue) (opts : option Options) : M QueryReturn :=
  let options := getOptions this opts VUndefined VUndefined in
  let wrap := truthy (coalesce (prop options "wrapQueries") (VBool true)) in
  let finish (elem : JSValue) : M QueryReturn :=
    let* r := wrapResult this wrap elem in ret (plain r) in
  if negb (isValid this) then finish VNull
  else if isType (typeof q) N_ then
    let index := match q with VNum z => z | _ => 0%Z end in
    if isCollection this then
      let* kids := children this in
      let* elem := lift (getIndex (wraps kids) index) in
      finish elem
    else
      let* kids := lift (getChildren (wraps this)) in
      let* elem := lift (getIndex kids index) in
      finish elem
  else if isType (typeof q) S_ then
    let selector := match q with VStr s => s | _ => "" end in
    if isCollection this then
      let* nodes := lift (iterate (wraps this)) in
      let* elem := getFirst nodes selector in
      finish elem
    else
      let* elem := selectOne (wraps this) selector in
      finish elem
  else if isType (typeof q) F_ then
    query this [ArgOptions options; ArgValue (VBool false); ArgValue q]
  else
    let* _ := emit ConsoleError in
    throw (TypeError "invalid get() query type").

(** *** find *)

(** The loop of [find()] over a collection: every match of every element
    member is pushed, in order. *)
Definition findMember (query : string) (node : JSValue) : M (list JSValue) :=
  match asElement node with
  | Some _ => selectAll node query
  | None => ret []
  end.

Definition find (this : Wrapper) (q : JSValue) (opts : option Options) : M QueryReturn :=
  let opts := match opts with Some o => o | None => mkOptions ∅ false end in
  let options := getOptions this (Some opts) VUndefined VUndefined in
  if isType (typeof q) F_ then
    query this [ArgOptions options; ArgValue (VBool true); ArgValue q]
  else if negb (isType (typeof q) S_) then
    throw (TypeError "invalid find() query type")
  else
    let selector := match q with VStr s => s | _ => "" end in
    let wrap := truthy (coalesce (prop options "wrapQueries") (VBool true)) in
    let* results :=
      (if negb (isValid this) then ret VNull
       else if isCollection this then
         let* nodes := lift (iterate (wraps this)) in
         let* found := collect nodes (findMember selector) in
         ret (VColl KArray found)
       else
         let* found := selectAll (wraps this) selector in
         ret (VColl KNodeList found)) in
    let* r := wrapResult this wrap results in
    ret (plain r).

(** *** add, addHTML, addText *)

(** The content argument of [add()]: a wrapper instance or any other
    value. *)
Inductive Content :=
| ContentWrapper (w : Wrapper)
| ContentValue (v : JSValue).

(** [elem.cloneNode(true)]; only nodes have the method. *)
Definition cloneValue (v : JSValue) : M JSValue :=
  match v with
  | VNode n => let* c := cloneDeep n in ret (VNode c)
  | _ => throw (TypeError "cloneNode is not a function")
  end.

Fixpoint cloneValues (l : list JSValue) : M (list JSValue) :=
  match l with
  | [] => ret []
  | elem :: rest =>
      let* c := cloneValue elem in
      let* cs := cloneValues rest in
      ret (c :: cs)
  end.

(** The [getContent] closure chosen by [add()] for a collection. *)
Definition contentGetter (content : JSValue) : M (M JSValue) :=
  if isType (typeof content) S_ then ret (ret content)
  else
    match asElement content with
    | Some _ => ret (cloneValue content)
    | None =>
        if U_isCollection content None then
          ret (let* elems := lift (iterate content) in
               let* clones := cloneValues elems in
               ret (VColl KArray clones))
        else
          let* _ := emit ConsoleError in
          throw (TypeError "Invalid content")
    end.

(** [if (content instanceof ElementsWrapper) content = content.wraps] *)
Definition unwrapContent (content : Content) : JSValue :=
  match content with
  | ContentWrapper w => wraps w
  | ContentValue v => v
  end.

Definition add (this : Wrapper) (content : Content) (pos : JSValue) : M Returned :=
  let pos := defaultTo pos POS_LAST in
  if negb (isValid this) then ret (AsWrapper this)
  else
    let content := unwrapContent content in
    let* _ :=
      (if isCollection this then
         let* getContent := contentGetter content in
         let* nodes := lift (iterate (wraps this)) in
         forEach nodes (fun node =>
           let* c := getContent in
           emit (CallAddContent node c pos))
       else emit (CallAddContent (wraps this) content pos)) in
    ret (AsWrapper this).

Definition addHTML (this : Wrapper) (html pos : JSValue) : M Returned :=
  let pos := defaultTo pos POS_LAST in
  if negb (isValid this) then ret (AsWrapper this)
  else
    let* _ :=
      (if isCollection this then
         let* nodes := lift (iterate (wraps this)) in
         forEach nodes (fun node => emit (CallAddHTML node html pos))
       else emit (CallAddHTML (wraps this) html pos)) in
    ret (AsValue VUndefined).

Definition addText (this : Wrapper) (text pos : JSValue) : M Returned :=
  let pos := defaultTo pos POS_LAST in
  if negb (isValid this) then ret (AsWrapper this)
  else
    let* _ :=
      (if isCollection this then
         let* nodes := lift (iterate (wraps this)) in
         forEach nodes (fun node => emit (CallAddText node text pos))
       else emit (CallAddText (wraps this) text pos)) in
    ret (AsValue VUndefined).

(** *** each *)

Record EachResult := mkEachResult {
  fn : JSValue;
  node : JSValue;
  index : nat;
  return_ : JSValue
}.

(** One call of the callback and the record made of it. *)
Definition eachCall (this : Wrapper) (fn node : JSValue) (i : nat) : M (list EachResult) :=
  let* _ := emit (CallFunction fn node i node (wrapperRef this)) in
  let* r := lift (callFunction fn node i node this) in
  ret [mkEachResult fn node i r].

(** In the collection branch the loop reads a variable [node] that no
    enclosing scope of the method declares, so the identifier is looked up
    in the global scope: a ReferenceError when it is unbound there, and
    otherwise a loop over the length of that global value. *)
Definition each (this : Wrapper) (fn : JSValue) : M (list EachResult) :=
  if negb (isType (typeof fn) F_) then throw (TypeError "Invalid function")
  else if negb (isValid this) then ret []
  else if isCollection this then
    match globalNode with
    | None => throw (ReferenceError "node is not defined")
    | Some node =>
        let* len := lift (getLength node) in
        collect (seq 0 (default 0 len)) (eachCall this fn node)
    end
  else
    eachCall this fn (wraps this) 0.

End ElementsWrapper.

(** ** Vocabulary of the properties *)

Section Vocabulary.

Context `{WebCore}.

(** [w] is a valid collection instance whose members are [items]. *)
Definition collectionOf (w : Wrapper) (items : list JSValue) : Prop :=
  isValid w = true ∧ isCollection w = true ∧ ∃ k, wraps w = VColl k items.

(** The node class and the switches an option object stands for. *)
Definition nodeClassOf (o : Options) : JSValue :=
  coalesce (prop o "nodeClass") (VClass ClsElement).

Definition separateSingleOf (o : Options) : bool :=
  truthy (coalesce (prop o "separateSingle") (VBool true)).

Definition wrapQueriesOf (o : Options) : bool :=
  truthy (coalesce (prop o "wrapQueries") (VBool true)).

Definition expandChildrenOf (w : Wrapper) : bool :=
  truthy (prop (options w) "expandChildren").

(** The [recompile] argument of [getOptions] after its default. *)
Definition recompileOf (w : Wrapper) (recompile : JSValue) : bool :=
  truthy (defaultTo recompile (prop (options w) "recompileOptions")).

Definition carriesMarker (local : option Options) : bool :=
  match local with Some l => WRAPPER_OPTS l | None => false end.

(** [local[key]] as an own property, if [local] is there and has it. *)
Definition localProp (local : option Options) (key : string) : option JSValue :=
  match local with Some l => props l !! key | None => None end.

(** The realm after some more calls to the collaborators. *)
Definition logged (st : Realm) (events : list Event) : Realm :=
  mkRealm (nextRef st) (trace st ++ events).

(** The element members of a collection, in order. *)
Definition elementsOf (members : list JSValue) : list Node :=
  omap asElement members.

(** Every match of every element member, in member order. *)
Definition allMatches (sel : string) (members : list JSValue) : list JSValue :=
  flat_map (fun n => map VNode (querySelectorAll n sel)) (elementsOf members).

(** What the function branch of [get()] would hand over to [query()]. *)
Definition delegated (w : Wrapper) (q : JSValue) (opts : option Options) : M QueryReturn :=
  query w [ArgOptions (getOptions w opts VUndefined VUndefined);
           ArgValue (VBool false); ArgValue q].

(** The calls of the content inserter that put the i-th clone into the
    i-th member. *)
Definition insertions (pos : JSValue) (members : list JSValue) (clones : list Node)
    : list Event :=
  zip_with (fun m c => CallAddContent m (VNode c) pos) members clones.

(** [c] is a deep copy of [n] made of objects allocated in [next, next'). *)
Definition freshCopy (n c : Node) (next next' : nat) : Prop :=
  shapeOf c = shapeOf n ∧ nodeRef c = next ∧ next < next'
  ∧ Forall (fun r => next ≤ r < next') (refsOf c).

(** The content types that [add()] fans out over a collection: a string, an
    element, or a recognised collection of nodes. *)
Definition supported (content : JSValue) : Prop :=
  typeof content = TString
  ∨ is_Some (asElement content)
  ∨ (U_isCollection content None = true
     ∧ ∃ k nodes, content = VColl k (map VNode nodes)).

End Vocabulary.

(** Induction on nodes, with the hypothesis for every child. *)
Section NodeInduction.

Variable P : Node -> Prop.
Hypothesis step : ∀ r k a cs, Forall P cs -> P (mkNode r k a cs).

Fixpoint Node_forall_ind (n : Node) : P n :=
  match n with
  | mkNode r k a cs =>
      step r k a cs
        ((fix all (l : list Node) : Forall P l :=
            match l with
            | [] => List.Forall_nil P
            | c :: l' => @List.Forall_cons _ P c l' (Node_forall_ind c) (all l')
            end) cs)
  end.

End NodeInduction.

(** ** A concrete host

    A small implementation of the collaborators, for running the methods on
    concrete documents: selectors are bare tag names matched against the
    descendants of the target in document order, the markup parser and the
    query engine find nothing, callbacks return their index, and the global
    scope has no binding of [node]. *)
Module Fixture.

Fixpoint descendants (n : Node) : list Node :=
  flat_map (fun c => c :: descendants c) (childNodes n).

Definition hasTag (tag : string) (n : Node) : bool :=
  match nodeKind n with
  | ElementKind t => String.eqb t tag
  | TextKind _ => false
  end.

Definition matches (n : Node) (sel : string) : list Node :=
  filter (fun d => hasTag sel d = true) (descendants n).

Fixpoint bareTag (s : string) : bool :=
  match s with
  | EmptyString => true
  | String c s' => negb (Ascii.eqb c "<"%char) && bareTag s'
  end.

#[export] Instance host : WebCore := {|
  VALID_TAG := bareTag;
  parseHTML := fun _ _ next => (VColl KNodeList [], next);
  POS_LAST := VStr "beforeend";
  U_isCollection := fun v _ => match v with VColl _ _ => true | _ => false end;
  querySelector := fun n sel => head (matches n sel);
  querySelectorAll := matches;
  Q_find := fun _ _ => VNull;
  Q_findWith := fun _ _ => mkFindResult VNull 0;
  callFunction := fun _ _ i _ _ => Normal (VNum (Z.of_nat i));
  globalNode := None
|}.

(** A document: two lists, the first with one item, the second with two. *)
Definition a1 : Node :=
  mkNode 2 (ElementKind "li") [] [mkNode 3 (TextKind "one") [] []].
Definition nodeA : Node := mkNode 1 (ElementKind "ul") [("class", "first")] [a1].
Definition b1 : Node := mkNode 5 (ElementKind "li") [] [].
Definition b2 : Node := mkNode 6 (ElementKind "li") [] [].
Definition nodeB : Node := mkNode 4 (ElementKind "ul") [] [b1; b2].

(** A detached element with some structure of its own. *)
Definition nodeX : Node :=
  mkNode 7 (ElementKind "p") [("id", "x")] [mkNode 8 (TextKind "hello") [] []].

(** The realm in which these nodes exist and nothing has been called yet,
    and the realm after one more object has been made. *)
Definition realm0 : Realm := mkRealm 9 [].
Definition realm1 : Realm := mkRealm 10 [].

Definition noOptions : Options := mkOptions ∅ false.
Definition rawResults : Options := mkOptions {[ "wrapQueries" := VBool false ]} false.
Definition detailed : Options := mkOptions {[ "queryDetails" := VBool true ]} false.
Definition arrayClass : Options := mkOptions {[ "nodeClass" := VClass ClsArray ]} false.
Definition keepSingle : Options := mkOptions {[ "separateSingle" := VBool false ]} false.
Definition compiledRaw : Options := mkOptions {[ "wrapQueries" := VBool false ]} true.
Definition wrapping : Options := mkOptions {[ "wrapQueries" := VBool true ]} false.

Definition listAB : JSValue := VColl KArray [VNode nodeA; VNode nodeB].

(** [new Wrapper([A, B], o)] and [new Wrapper(null, o)] as the constructor
    builds them in [realm0]. *)
Definition wrapperAB (o : Options) : Wrapper :=
  mkWrapper 9 listAB o listAB true true.

Definition nothing (o : Options) : Wrapper :=
  mkWrapper 9 VNull o VNull false false.

End Fixture.

(** ** The accessors and the remaining traversal methods *)

Section Accessors.

Context `{WebCore}.

(** *** firstElement, lastElement, first, last *)

(** [v.firstElementChild] and [v.lastElementChild]: only elements have
    them; an element without element children answers null. *)
Definition getFirstElementChild (v : JSValue) : Completion JSValue :=
  match v with
  | VUndefined | VNull => Throw (TypeError "Cannot read properties of undefined")
  | VNode n =>
      Normal (if isElementNode n
              then match head (elementChildren n) with
                   | Some c => VNode c
                   | None => VNull
                   end
              else VUndefined)
  | _ => Normal VUndefined
  end.

Definition getLastElementChild (v : JSValue) : Completion JSValue :=
  match v with
  | VUndefined | VNull => Throw (TypeError "Cannot read properties of undefined")
  | VNode n =>
      Normal (if isElementNode n
              then match last (elementChildren n) with
                   | Some c => VNode c
                   | None => VNull
                   end
              else VUndefined)
  | _ => Normal VUndefined
  end.

Definition firstElement (this : Wrapper) : Completion JSValue :=
  if negb (isValid this) then Normal VNull
  else if isCollection this then
    match getIndex (wraps this) 0 with
    | Normal child =>
        if truthy (prop (options this) "expandChildren")
        then getFirstElementChild child
        else Normal child
    | Throw e => Throw e
    end
  else getFirstElementChild (wraps this).

(** [this.wraps[this.wraps.length - 1]]; without a length the index is NaN
    and the element undefined, as for the index -1. *)
Definition lastIndex (len : option nat) : Z :=
  match len with
  | Some n => (Z.of_nat n - 1)%Z
  | None => (-1)%Z
  end.

Definition lastElement (this : Wrapper) : Completion JSValue :=
  if negb (isValid this) then Normal VNull
  else if isCollection this then
    match getLength (wraps this) with
    | Normal len =>
        match getIndex (wraps this) (lastIndex len) with
        | Normal child =>
            if truthy (prop (options this) "expandChildren")
            then getLastElementChild child
            else Normal child
        | Throw e => Throw e
        end
    | Throw e => Throw e
    end
  else getLastElementChild (wraps this).

Definition first (this : Wrapper) : M Wrapper :=
  let* elem := lift (firstElement this) in _make this elem None.

Definition last_ (this : Wrapper) : M Wrapper :=
  let* elem := lift (lastElement this) in _make this elem None.

(** *** wrappedChildren *)

Definition wrappedChildren (this : Wrapper) : M (list Wrapper) :=
  if negb (isValid this) then ret []
  else
    let* kids := children this in
    if negb (isValid kids) then ret []
    else if negb (isCollection kids) then
      throw (Error ".children returned non-collection")
    else
      let* nodes := lift (iterate (wraps kids)) in
      collect nodes (fun node => let* wrappedNode := _make this node None in
                                 ret [wrappedNode]).

End Accessors.

(** *** id and class *)

(** The first value of an attribute, if the node has it. *)
Fixpoint attribute (attrs : list (string * string)) (name : string) : option string :=
  match attrs with
  | [] => None
  | (k, v) :: rest => if String.eqb k name then Some v else attribute rest name
  end.

(** [v.id]: an element reflects its [id] attribute, empty when absent. *)
Definition getId (v : JSValue) : Completion JSValue :=
  match v with
  | VUndefined | VNull => Throw (TypeError "Cannot read properties of undefined")
  | VNode n =>
      Normal (if isElementNode n
              then VStr (default "" (attribute (attributes n) "id"))
              else VUndefined)
  | _ => Normal VUndefined
  end.

Definition id_get (this : Wrapper) : Completion JSValue :=
  if negb (isCollection this) then getId (wraps this) else Normal VUndefined.

(** The setters write properties of the wrapped objects; their effect is the
    list of the assignments made, in order. *)
Inductive Assignment :=
| Assign (target : JSValue) (property : string) (value : JSValue).

(** [target.property = value] in strict code: a TypeError unless the target
    is an object. *)
Definition assignProp (target : JSValue) (property : string) (value : JSValue)
    (done : list Assignment) : Completion unit * list Assignment :=
  if isObj target || isType (typeof target) F_
  then (Normal tt, done ++ [Assign target property value])
  else (Throw (TypeError "Cannot set properties"), done).

Fixpoint assignEach (nodes : list JSValue) (property : string) (value : JSValue)
    (done : list Assignment) : Completion unit * list Assignment :=
  match nodes with
  | [] => (Normal tt, done)
  | node :: rest =>
      match assignProp node property value done with
      | (Normal _, done') => assignEach rest property value done'
      | (Throw e, done') => (Throw e, done')
      end
  end.

Definition id_set (this : Wrapper) (id : JSValue) (done : list Assignment)
    : Completion unit * list Assignment :=
  if isCollection this
  then (Throw (TypeError "Cannot set 'id' on a collection!"), done)
  else assignProp (wraps this) "id" id done.

Definition class_set (this : Wrapper) (className : JSValue) (done : list Assignment)
    : Completion unit * list Assignment :=
  if negb (isType (typeof className) S_)
  then (Throw (TypeError "Cannot set non-string class name"), done)
  else if negb (isValid this) then (Normal tt, done)
  else if isCollection this then
    match iterate (wraps this) with
    | Normal nodes => assignEach nodes "className" className done
    | Throw e => (Throw e, done)
    end
  else assignProp (wraps this) "className" className done.

(** What the [class] getter returns: null, undefined (the target has no
    class list), the class list of one element, or an array of the class
    lists of some elements. *)
Inductive ClassValue :=
| ClassNull
| ClassUndefined
| ClassListOf (target : Node)
| ClassLists (targets : list Node).

(** The loop of the getter: [if (node.classList) lists.push(node.classList)];
    elements have a class list, null and undefined have no properties. *)
Fixpoint classLists (nodes : list JSValue) : Completion (list Node) :=
  match nodes with
  | [] => Normal []
  | node :: rest =>
      match node with
      | VUndefined | VNull => Throw (TypeError "Cannot read properties of undefined")
      | _ =>
          match classLists rest with
          | Normal lists =>
              Normal (match asElement node with
                      | Some n => n :: lists
                      | None => lists
                      end)
          | Throw e => Throw e
          end
      end
  end.

Definition class_get (this : Wrapper) : Completion ClassValue :=
  if negb (isValid this) then Normal ClassNull
  else if isCollection this then
    match iterate (wraps this) with
    | Normal nodes =>
        match classLists nodes with
        | Normal lists => Normal (ClassLists lists)
        | Throw e => Throw e
        end
    | Throw e => Throw e
    end
  else
    match wraps this with
    | VUndefined | VNull => Throw (TypeError "Cannot read properties of undefined")
    | v => Normal (match asElement v with
                   | Some n => ClassListOf n
                   | None => ClassUndefined
                   end)
    end.

(** *** More vocabulary *)

Section MoreVocabulary.

Context `{WebCore}.

(** [w] is a valid single-target instance around the element [n]. *)
Definition singleOf (w : Wrapper) (n : Node) : Prop :=
  isValid w = true ∧ isCollection w = false
  ∧ wraps w = VNode n ∧ isElementNode n = true.

(** The options of the instance that [children] builds: the base options
    with [separateSingle] forced off and [expandChildren] written again. *)
Definition childOptions (w : Wrapper) : Options :=
  mkOptions
    (<["separateSingle" := VBool false]>
       (<["expandChildren" := prop (options w) "expandChildren"]> ∅)
     ∪ props (options w))
    (WRAPPER_OPTS (options w)).

Definition queryDetailsOf (o : Options) : bool :=
  truthy (coalesce (prop o "queryDetails") (VBool false)).

(** The search arguments that reach the engine: those of the call, then
    [options.getNested] when it is an object. *)
Definition engineArgs (o : Options) (args : list QArg) : list QArg :=
  if isObj (prop o "getNested")
  then args ++ [ArgValue (prop o "getNested")] else args.

(** What one engine result contributes to the results of [query()] on a
    collection: itself when it is an element, its items when it is a
    recognised collection, nothing otherwise. *)
Definition hitsOf (subres : JSValue) : list JSValue :=
  if truthy subres then
    match asElement subres with
    | Some _ => [subres]
    | None =>
        if U_isCollection subres None then
          match iterate subres with
          | Normal items => items
          | Throw _ => []
          end
        else []
    end
  else [].

(** Every value the host recognises as a collection can be iterated. *)
Definition collectionsIterable : Prop :=
  ∀ v, U_isCollection v None = true -> ∃ items, iterate v = Normal items.

(** The instance that [_make(c)] builds around the node [c] as object
    number [r], with the base options of [w]. *)
Definition wrapperOf (w : Wrapper) (valid : Node -> bool) (r : nat) (c : Node) : Wrapper :=
  mkWrapper r (VNode c) (options w) (VNode c)
    (U_isCollection (VNode c) (Some (nodeClassOf (options w)))) (valid c).

(** The calls of the content inserter that put the i-th batch of clones,
    as an array, into the i-th member. *)
Definition batchInsertions (pos : JSValue) (members : list JSValue)
    (batches : list (list Node)) : list Event :=
  zip_with (fun m b => CallAddContent m (VColl KArray (map VNode b)) pos)
    members batches.

(** The selector engine has only been called on nodes that pass the
    capability check of the option object [o], that is, on instances of its
    node class. *)
Definition queriesOnlyCapable (o : Options) (events : list Event) : Prop :=
  ∀ n sel,
    CallQuerySelector n sel ∈ events ∨ CallQuerySelectorAll n sel ∈ events ->
    instanceOf (VNode n) (nodeClassOf o) = Normal true.

(** A value whose properties can be assigned: an object or a function. *)
Definition assignable (v : JSValue) : bool :=
  isObj v || isType (typeof v) F_.

Definition nullish (v : JSValue) : bool :=
  match v with VUndefined | VNull => true | _ => false end.

End MoreVocabulary.

(** More sample instances on the concrete host. *)
Module Samples.

Import Fixture.

Definition textNode : Node := mkNode 3 (TextKind "one") [] [].

(** [new Wrapper(A)] and [new Wrapper([A, B], {expandChildren: true})]. *)
Definition wrapperA (o : Options) : Wrapper :=
  mkWrapper 9 (VNode nodeA) o (VNode nodeA) false true.

Definition expanding : Options :=
  mkOptions {[ "expandChildren" := VBool true ]} false.

Definition rawDetailed : Options :=
  mkOptions (<["queryDetails" := VBool true]> {[ "wrapQueries" := VBool false ]}) true.

Definition wrapperB (o : Options) : Wrapper :=
  mkWrapper 9 (VNode nodeB) o (VNode nodeB) false true.

(** [new Wrapper([A, text], o)]: a collection with a member that is not an
    element. *)
Definition listMixed : JSValue := VColl KArray [VNode nodeA; VNode textNode].

Definition wrapperMixed (o : Options) : Wrapper :=
  mkWrapper 9 listMixed o listMixed true true.

(** [new Wrapper(nodes, {nodeClass: Text, wrapQueries: false})] for the
    node list [A, text]: the text node passes the capability check, the
    element [A] does not. *)
Definition textClassRaw : Options :=
  mkOptions (<["nodeClass" := VClass ClsText]> {[ "wrapQueries" := VBool false ]})
    false.

Definition nodesMixed : JSValue := VColl KNodeList [VNode nodeA; VNode textNode].

Definition wrapperTextClass : Wrapper :=
  mkWrapper 9 nodesMixed textClassRaw nodesMixed true true.

(** [new Wrapper([A, null], o)] *)
Definition listHole : JSValue := VColl KArray [VNode nodeA; VNull].

Definition wrapperHole (o : Options) : Wrapper :=
  mkWrapper 9 listHole o listHole true true.

(** A host like the one of the fixture, with a query engine that finds the
    list items below its target. *)
Definition itemsBelow (target : JSValue) : JSValue :=
  match target with
  | VNode n => VColl KNodeList (map VNode (matches n "li"))
  | _ => VNull
  end.

Definition searchHost : WebCore := {|
  VALID_TAG := bareTag;
  parseHTML := fun _ _ next => (VColl KNodeList [], next);
  POS_LAST := VStr "beforeend";
  U_isCollection := fun v _ => match v with VColl _ _ => true | _ => false end;
  querySelector := fun n sel => head (matches n sel);
  querySelectorAll := matches;
  Q_find := fun target _ => itemsBelow target;
  Q_findWith := fun target _ => mkFindResult (itemsBelow target) 0;
  callFunction := fun _ _ i _ _ => Normal (VNum (Z.of_nat i));
  globalNode := None
|}.

End Samples.

(** ** Lemmas about the monad, the loops and cloning *)

Section Loops.

Context `{WebCore}.

Lemma logged_nil (st : Realm) : logged st [] = st.
Proof. unfold logged. rewrite app_nil_r. destruct st; reflexivity. Qed.

Lemma logged_app (st : Realm) (e1 e2 : list Event) :
  logged (logged st e1) e2 = logged st (e1 ++ e2).
Proof. unfold logged. simpl. rewrite app_assoc. reflexivity. Qed.

(** A computation that ends in [ret b] can only return [b]. *)
Lemma bind_const_inv {A B} (m : M A) (b : B) (st st' : Realm) (r : B) :
  (let* _ := m in ret b) st = (Normal r, st') -> r = b.
Proof.
  unfold bind, ret. destruct (m st) as [[a | e] st1]; intros Heq; congruence.
Qed.

(** A loop whose body only calls a collaborator. *)
Lemma forEach_emit {A} (f : A -> Event) (l : list A) (st : Realm) :
  forEach l (fun x => emit (f x)) st = (Normal tt, logged st (map f l)).
Proof.
  revert st. induction l as [| x l IH]; intros st; cbn [forEach map].
  - unfold ret. rewrite logged_nil. reflexivity.
  - unfold bind, emit at 1. rewrite IH.
    fold (logged st [f x]). rewrite logged_app. reflexivity.
Qed.

(** A loop whose body always completes, completes. *)
Lemma forEach_total {A} (body : A -> M unit) (l : list A) :
  (∀ x st, ∃ st', body x st = (Normal tt, st')) ->
  ∀ st, ∃ st', forEach l body st = (Normal tt, st').
Proof.
  intros Hbody. induction l as [| x l IH]; intros st; cbn [forEach].
  - exists st. reflexivity.
  - unfold bind. destruct (Hbody x st) as [st1 ->]. apply IH.
Qed.

(** What holds of everything a body pushes holds of the collected array. *)
Lemma collect_Forall {A B} (P : B -> Prop) (body : A -> M (list B)) (l : list A) :
  (∀ x st ys st', body x st = (Normal ys, st') -> Forall P ys) ->
  ∀ st zs st', collect l body st = (Normal zs, st') -> Forall P zs.
Proof.
  intros Hbody. induction l as [| x l IH]; intros st zs st'; cbn [collect].
  - unfold ret. intros [= <- _]. constructor.
  - unfold bind at 1. destruct (body x st) as [[ys | e] st1] eqn:Hx; [| discriminate].
    unfold bind at 1. destruct (collect l body st1) as [[zs' | e] st2] eqn:Hl;
      [| discriminate].
    unfold ret. intros [= <- _]. apply Forall_app. split.
    + eapply Hbody, Hx.
    + eapply IH, Hl.
Qed.

(** The local loop of [cloneNode] is [cloneNodes]. *)
Lemma cloneNode_unfold (n : Node) (next : nat) :
  cloneNode n next =
    let '(kids, next') := cloneNodes (childNodes n) (S next) in
    (mkNode next (nodeKind n) (attributes n) kids, next').
Proof.
  destruct n as [r k a cs]. simpl.
  assert (Heq : ∀ l m,
    (fix cloneAll (l : list Node) (next : nat) {struct l} : list Node * nat :=
       match l with
       | [] => ([], next)
       | c :: l' =>
           let '(c', next1) := cloneNode c next in
           let '(l'', next2) := cloneAll l' next1 in (c' :: l'', next2)
       end) l m = cloneNodes l m).
  { induction l as [| c l IH]; intros m; simpl; [reflexivity |].
    destruct (cloneNode c m) as [c' m1]. rewrite IH. reflexivity. }
  rewrite Heq. reflexivity.
Qed.

(** A deep clone has the structure of the original and is made of new
    objects only. *)
Lemma cloneNode_fresh (n : Node) :
  ∀ next, freshCopy n (cloneNode n next).1 next (cloneNode n next).2.
Proof.
  induction n as [r k a cs IH] using Node_forall_ind. intros next.
  rewrite cloneNode_unfold. simpl.
  assert (Hkids : ∀ m,
    map shapeOf (cloneNodes cs m).1 = map shapeOf cs
    ∧ m ≤ (cloneNodes cs m).2
    ∧ Forall (fun r => m ≤ r < (cloneNodes cs m).2)
        (flat_map refsOf (cloneNodes cs m).1)).
  { induction IH as [| c l Hc _ IHl]; intros m; simpl.
    - repeat split; [lia | constructor].
    - specialize (Hc m). destruct (cloneNode c m) as [c' m1]. simpl in Hc.
      destruct Hc as (Hs & Hr & Hlt & Hall).
      specialize (IHl m1). destruct (cloneNodes l m1) as [l'' m2]. simpl in *.
      destruct IHl as (Hs' & Hle & Hall').
      repeat split.
      + rewrite Hs, Hs'. reflexivity.
      + lia.
      + apply Forall_app. split.
        * eapply Forall_impl; [exact Hall |]. simpl. intros; lia.
        * eapply Forall_impl; [exact Hall' |]. simpl. intros; lia. }
  specialize (Hkids (S next)). destruct (cloneNodes cs (S next)) as [kids next'].
  simpl in *. destruct Hkids as (Hs & Hle & Hall).
  unfold freshCopy. simpl. repeat split.
  - rewrite Hs. reflexivity.
  - lia.
  - constructor; [lia |].
    eapply Forall_impl; [exact Hall |]. simpl. intros; lia.
Qed.

Lemma cloneValue_total (n : Node) (st : Realm) :
  ∃ c st', cloneValue (VNode n) st = (Normal (VNode c), st').
Proof.
  unfold cloneValue, cloneDeep, bind, ret.
  destruct (cloneNode n (nextRef st)) as [c next]. eauto.
Qed.

Lemma cloneValues_total (nodes : list Node) :
  ∀ st, ∃ cs st', cloneValues (map VNode nodes) st = (Normal cs, st').
Proof.
  induction nodes as [| n nodes IH]; intros st; cbn [map cloneValues].
  - exists [], st. reflexivity.
  - unfold bind at 1. destruct (cloneValue_total n st) as (c & st1 & ->).
    unfold bind at 1. destruct (IH st1) as (cs & st2 & ->). unfold ret. eauto.
Qed.

(** For a supported content, [add()] finds a getter, and the getter yields
    a content every time it is called. *)
Lemma contentGetter_total (content : JSValue) (st : Realm) :
  supported content ->
  ∃ getContent, contentGetter content st = (Normal getContent, st)
                ∧ ∀ st1, ∃ c st2, getContent st1 = (Normal c, st2).
Proof.
  unfold contentGetter. intros [Hs | [[n Hn] | (Hc & k & nodes & ->)]].
  - rewrite Hs. cbn [isType S_]. eexists. split; [reflexivity |].
    intros st1. unfold ret. eauto.
  - destruct content; try discriminate. cbn [typeof isType S_]. rewrite Hn.
    eexists. split; [reflexivity |]. intros st1.
    destruct (cloneValue_total n0 st1) as (c & st2 & ->). eauto.
  - cbn [typeof isType S_ asElement]. rewrite Hc.
    eexists. split; [reflexivity |]. intros st1.
    unfold bind at 1. unfold lift at 1. cbn [iterate].
    unfold bind at 1. destruct (cloneValues_total nodes st1) as (cs & st2 & ->).
    unfold ret. eauto.
Qed.

(** One iteration of the fan-out of [add()] for an element content. *)
Lemma add_step (x : Node) (pos node : JSValue) (st : Realm) :
  (let* c := cloneValue (VNode x) in emit (CallAddContent node c pos)) st
  = (Normal tt,
     mkRealm (cloneNode x (nextRef st)).2
       (trace st ++ [CallAddContent node (VNode (cloneNode x (nextRef st)).1) pos])).
Proof.
  unfold cloneValue, cloneDeep, bind, ret, emit.
  destruct (cloneNode x (nextRef st)) as [c next1]. reflexivity.
Qed.

(** The whole fan-out: one clone per member, all of them new. *)
Lemma add_loop (x : Node) (pos : JSValue) (members : list JSValue) :
  ∀ st, ∃ clones st',
    forEach members (fun node =>
        let* c := cloneValue (VNode x) in emit (CallAddContent node c pos)) st
      = (Normal tt, st')
    ∧ trace st' = trace st ++ insertions pos members clones
    ∧ length clones = length members
    ∧ nextRef st ≤ nextRef st'
    ∧ Forall (fun c => shapeOf c = shapeOf x
                       ∧ Forall (fun r => nextRef st ≤ r < nextRef st') (refsOf c))
        clones
    ∧ NoDup (map nodeRef clones).
Proof.
  induction members as [| m members IH]; intros st.
  - exists [], st. simpl. unfold ret. rewrite app_nil_r.
    repeat split; auto. constructor.
  - cbn [forEach]. unfold bind at 1. rewrite add_step.
    pose proof (cloneNode_fresh x (nextRef st)) as Hfresh.
    destruct (cloneNode x (nextRef st)) as [c next1]. simpl in Hfresh.
    destruct Hfresh as (Hshape & Hroot & Hlt & Hrefs). cbn [fst snd].
    destruct (IH (mkRealm next1 (trace st ++ [CallAddContent m (VNode c) pos])))
      as (clones & st' & Hrun & Htrace & Hlen & Hle & Hall & Hnodup).
    cbn [trace nextRef] in *.
    exists (c :: clones), st'. rewrite Hrun.
    split; [reflexivity |]. split; [| split; [| split; [| split]]].
    + rewrite Htrace, <- app_assoc. reflexivity.
    + simpl. rewrite Hlen. reflexivity.
    + lia.
    + constructor.
      * split; [exact Hshape |].
        eapply Forall_impl; [exact Hrefs |]. simpl. intros; lia.
      * eapply Forall_impl; [exact Hall |]. simpl. intros c' [Hs Hr].
        split; [exact Hs |]. eapply Forall_impl; [exact Hr |]. simpl. intros; lia.
    + simpl. constructor; [| exact Hnodup].
      rewrite Hroot. intros Hin. apply list_elem_of_fmap in Hin as (c' & Heq & Hc').
      rewrite Forall_forall in Hall. destruct (Hall c' Hc') as [_ Hr].
      destruct c' as [r' k' a' cs']. simpl in *.
      apply Forall_cons in Hr as [Hr _]. lia.
Qed.

(** The loop of [find()]: every element member is asked once, in order, and
    the matches are concatenated. *)
Lemma find_loop (sel : string) (members : list JSValue) :
  ∀ st, collect members (findMember sel) st
        = (Normal (allMatches sel members),
           logged st (map (fun n => CallQuerySelectorAll n sel) (elementsOf members))).
Proof.
  induction members as [| m members IH]; intros st.
  - simpl. unfold ret. rewrite logged_nil. reflexivity.
  - cbn [collect]. unfold bind at 1. unfold findMember at 1.
    unfold allMatches, elementsOf in *. cbn [omap list_omap].
    destruct (asElement m) as [n |] eqn:Hm.
    + unfold selectAll. rewrite Hm. unfold bind at 1. unfold emit at 1.
      unfold ret at 1. unfold bind at 1. rewrite IH. unfold ret.
      fold (logged st [CallQuerySelectorAll n sel]). rewrite logged_app.
      destruct m as [| | | | | | | | n' |]; try discriminate.
      reflexivity.
    + unfold ret at 1. unfold bind at 1. rewrite IH. reflexivity.
Qed.

(** The loop of [get()]: it stops at the first element member with a match
    and asks nothing of the members after it. *)
Lemma get_loop (sel : string) (a hit : Node) (post : list JSValue) :
  isElementNode a = true -> querySelector a sel = Some hit ->
  ∀ pre st,
    (∀ n, n ∈ elementsOf pre -> querySelector n sel = None) ->
    getFirst (pre ++ VNode a :: post) sel st
    = (Normal (VNode hit),
       logged st (map (fun n => CallQuerySelector n sel) (elementsOf pre ++ [a]))).
Proof.
  intros Ha Hhit. induction pre as [| m pre IH]; intros st Hpre.
  - simpl. rewrite Ha. unfold selectOne. simpl. rewrite Ha, Hhit.
    unfold bind, emit, ret. simpl. reflexivity.
  - cbn [app getFirst]. unfold elementsOf in *. cbn [omap list_omap] in *.
    destruct (asElement m) as [n |] eqn:Hm.
    + unfold selectOne. rewrite Hm. rewrite (Hpre n) by (left).
      unfold bind at 1. unfold bind at 1. unfold emit at 1. unfold ret at 1.
      cbn [truthy]. rewrite IH.
      * fold (logged st [CallQuerySelector n sel]). rewrite logged_app. reflexivity.
      * intros n' Hn'. apply Hpre. right. exact Hn'.
    + apply IH. exact Hpre.
Qed.

(** With no global binding of [node], [each()] on a valid collection stops
    at the loop header, before any call of the callback. *)
Lemma each_unbound (w : Wrapper) (fn : JSValue) (st : Realm) :
  globalNode = None -> typeof fn = TFunction ->
  isValid w = true -> isCollection w = true ->
  each w fn st = (Throw (ReferenceError "node is not defined"), st).
Proof.
  intros Hg Hf Hv Hc. unfold each. rewrite Hf, Hv, Hc, Hg. reflexivity.
Qed.

(** With a global binding of [node], the records of [each()] on a valid
    collection all hold that global value: the members are never visited. *)
Lemma each_global (w : Wrapper) (fn g : JSValue) (st st' : Realm)
    (records : list EachResult) :
  globalNode = Some g ->
  isValid w = true -> isCollection w = true ->
  each w fn st = (Normal records, st') ->
  Forall (fun r => node r = g) records.
Proof.
  intros Hg Hv Hc. unfold each. rewrite Hv, Hc, Hg.
  destruct (isType (typeof fn) F_); cbn [negb]; [| discriminate].
  unfold bind at 1. unfold lift at 1.
  destruct (getLength g) as [len | e]; [| discriminate].
  apply collect_Forall. intros i st1 ys st2. unfold eachCall, bind, emit, lift, ret.
  destruct (callFunction fn g i g w) as [r | e]; [| discriminate].
  intros [= <- _]. repeat constructor.
Qed.

End Loops.

(** ** The claims *)

Section Claims.

Context `{WebCore}.

(** C2 (amended).  On an invalid instance [get(query, options)] computes a
    none result for every query, function queries included: the validity
    guard comes before the dispatch on the type of the query, so that
    [query()] is not called and no TypeError is raised.  The none is returned
    as it is when [wrapQueries] is false and is otherwise wrapped by
    [_make]. *)
Theorem get_invalid_is_none (w : Wrapper) (q : JSValue) (opts : option Options)
    (st : Realm) :
  isValid w = false ->
  let options := getOptions w opts VUndefined VUndefined in
  get w q opts st =
    (if wrapQueriesOf options
     then (let* w' := _make w VNull None in ret (plain (AsWrapper w'))) st
     else (Normal (plain (AsValue VNull)), st)).
Proof.
  intros Hv options. unfold get. rewrite Hv. cbn [negb].
  fold options. fold (wrapQueriesOf options). unfold wrapResult.
  destruct (wrapQueriesOf options); unfold bind, ret.
  - destruct (_make w VNull None st) as [[w' | e] st']; reflexivity.
  - reflexivity.
Qed.

(** C3 (amended).  Wrapping an empty collection yields an instance with
    is-valid false for every option object whose node class the collection
    object itself is not an instance of: the default [Element] and every node
    class among them, whatever [separateSingle] and the other options are. *)
Theorem construct_empty_collection_invalid (opts : Options) (k : CollKind)
    (st : Realm) :
  instanceOf (VColl k []) (nodeClassOf opts) = Normal false ->
  ∃ w st', construct (VColl k []) opts st = (Normal w, st')
           ∧ isValid w = false ∧ wraps w = VColl k [].
Proof.
  intros Hinst. unfold construct. fold (nodeClassOf opts).
  unfold bind, ret, lift, fresh. simpl.
  destruct (truthy _ && U_isCollection _ _); simpl;
    destruct (U_isCollection _ _); simpl; rewrite Hinst; eauto.
Qed.

(** C4.  A collection of exactly one node that passes the capability check:
    with [separateSingle] enabled (the default) the constructor yields an
    instance that is not a collection and whose target is that node; with
    [separateSingle] disabled it yields a collection instance around the
    same collection.  Both are valid. *)
Theorem construct_single_member (opts : Options) (k : CollKind) (n : JSValue)
    (st : Realm) :
  U_isCollection (VColl k [n]) (Some (nodeClassOf opts)) = true ->
  instanceOf n (nodeClassOf opts) = Normal true ->
  (separateSingleOf opts = true ->
     ∃ w st', construct (VColl k [n]) opts st = (Normal w, st')
              ∧ isCollection w = false ∧ wraps w = n ∧ isValid w = true)
  ∧ (separateSingleOf opts = false ->
     ∃ w st', construct (VColl k [n]) opts st = (Normal w, st')
              ∧ isCollection w = true ∧ wraps w = VColl k [n] ∧ isValid w = true).
Proof.
  intros Hcoll Hinst. unfold separateSingleOf.
  split; intros Hss; unfold construct; fold (nodeClassOf opts);
    unfold bind, ret, lift, fresh; simpl; rewrite Hcoll, Hss; simpl.
  - rewrite Hinst. eauto 10.
  - eauto 10.
Qed.

(** C5.  The [children] getter of an invalid instance, and of a collection
    instance whose [expandChildren] option is off, returns the instance
    itself and leaves the realm as it was: no object is made.  Applying it
    again changes nothing. *)
Theorem children_same_instance (w : Wrapper) (st : Realm) :
  isValid w = false ∨ (isCollection w = true ∧ expandChildrenOf w = false) ->
  children w st = (Normal w, st)
  ∧ (let* c := children w in children c) st = children w st.
Proof.
  intros Hw.
  assert (Hc : children w st = (Normal w, st)).
  { unfold children, expandChildrenOf in *.
    destruct Hw as [-> | [Hc He]]; [reflexivity |].
    rewrite Hc, He. destruct (isValid w); reflexivity. }
  split; [exact Hc |]. unfold bind. rewrite Hc. simpl. exact Hc.
Qed.

(** C6 (amended).  [find(selector)] on a valid collection asks every member
    that is an instance of [Element], in member order, for all its matches,
    and skips the members that are not: the test is the fixed
    [node instanceof Element], whatever node class the options configure.
    Its result is the array of all matches in that order, wrapped by [_make]
    or raw as [wrapQueries] says.  For members [A, B] with matches [a1] and
    [b1, b2] the array is [a1, b1, b2]. *)
Theorem find_flattens_in_order (w : Wrapper) (members : list JSValue)
    (sel : string) (opts : option Options) (st : Realm) :
  collectionOf w members ->
  let options :=
    getOptions w (Some (default (mkOptions ∅ false) opts)) VUndefined VUndefined in
  let st' :=
    logged st (map (fun n => CallQuerySelectorAll n sel) (elementsOf members)) in
  find w (VStr sel) opts st
    = (let* r := wrapResult w (wrapQueriesOf options)
                   (VColl KArray (allMatches sel members)) in
       ret (plain r)) st'
  ∧ (wrapQueriesOf options = false ->
     find w (VStr sel) opts st
       = (Normal (plain (AsValue (VColl KArray (allMatches sel members)))), st'))
  ∧ (∀ A B a1 b1 b2,
       members = [VNode A; VNode B] ->
       isElementNode A = true -> isElementNode B = true ->
       querySelectorAll A sel = [a1] -> querySelectorAll B sel = [b1; b2] ->
       allMatches sel members = [VNode a1; VNode b1; VNode b2]).
Proof.
  intros (Hv & Hc & k & Hw) options st'.
  assert (Hfind : find w (VStr sel) opts st
    = (let* r := wrapResult w (wrapQueriesOf options)
                   (VColl KArray (allMatches sel members)) in
       ret (plain r)) st').
  { unfold find. cbn [typeof isType F_ S_ negb].
    rewrite Hv, Hc, Hw. cbn [negb iterate].
    replace (match opts with Some o => o | None => mkOptions ∅ false end)
      with (default (mkOptions ∅ false) opts) by (destruct opts; reflexivity).
    fold options. fold (wrapQueriesOf options).
    unfold bind at 1. unfold bind at 1. unfold lift at 1.
    unfold bind at 1. rewrite find_loop. unfold ret at 1. reflexivity. }
  split; [exact Hfind |]. split.
  - intros Hraw. rewrite Hfind, Hraw. reflexivity.
  - intros A B a1 b1 b2 -> HA HB HqA HqB.
    unfold allMatches, elementsOf. simpl. rewrite HA, HB. simpl.
    rewrite HqA, HqB. reflexivity.
Qed.

(** C7 (amended).  [get(selector)] on a valid collection asks the members
    that are instances of [Element], in order, skipping the others (the
    test is the fixed [node instanceof Element], whatever node class the
    options configure), and stops at the first one, [a], whose
    [querySelector] finds something: the result is that match, wrapped by
    [_make] or raw as [wrapQueries] says, and the selector engine has been
    called for the element members before [a] and for [a] only; no member
    after [a] is queried. *)
Theorem get_short_circuits (w : Wrapper) (pre post : list JSValue) (a hit : Node)
    (sel : string) (opts : option Options) (st : Realm) :
  collectionOf w (pre ++ VNode a :: post) ->
  isElementNode a = true ->
  querySelector a sel = Some hit ->
  (∀ n, n ∈ elementsOf pre -> querySelector n sel = None) ->
  let options := getOptions w opts VUndefined VUndefined in
  let st' :=
    logged st (map (fun n => CallQuerySelector n sel) (elementsOf pre ++ [a])) in
  get w (VStr sel) opts st
    = (let* r := wrapResult w (wrapQueriesOf options) (VNode hit) in
       ret (plain r)) st'
  ∧ (wrapQueriesOf options = false ->
     get w (VStr sel) opts st = (Normal (plain (AsValue (VNode hit))), st')).
Proof.
  intros (Hv & Hc & k & Hw) Ha Hhit Hpre options st'.
  assert (Hget : get w (VStr sel) opts st
    = (let* r := wrapResult w (wrapQueriesOf options) (VNode hit) in
       ret (plain r)) st').
  { unfold get. rewrite Hv, Hc, Hw. cbn [negb typeof isType N_ S_ iterate].
    fold options. fold (wrapQueriesOf options).
    unfold bind at 1. unfold lift at 1. unfold bind at 1.
    rewrite (get_loop sel a hit post Ha Hhit pre st Hpre). reflexivity. }
  split; [exact Hget |]. intros Hraw. rewrite Hget, Hraw. reflexivity.
Qed.

(** C8.  [add(x)] with an element [x] on a valid collection calls the
    content inserter once per member, in member order, each time with a
    clone of [x] made for that member.  The clones have the structure of
    [x], they are pairwise different objects, and no node of a clone is a
    node of [x]: [x] itself is never handed to the inserter.  The method
    returns the instance. *)
Theorem add_clones_for_each_member (w : Wrapper) (members : list JSValue)
    (x : Node) (pos : JSValue) (st : Realm) :
  collectionOf w members ->
  isElementNode x = true ->
  Forall (fun r => r < nextRef st) (refsOf x) ->
  ∃ clones st',
    add w (ContentValue (VNode x)) pos st = (Normal (AsWrapper w), st')
    ∧ trace st' = trace st ++ insertions (defaultTo pos POS_LAST) members clones
    ∧ length clones = length members
    ∧ Forall (fun c => shapeOf c = shapeOf x) clones
    ∧ NoDup (map nodeRef clones)
    ∧ Forall (fun c => Forall (fun r => r ∉ refsOf x) (refsOf c)) clones.
Proof.
  intros (Hv & Hc & k & Hw) Hel Halloc.
  destruct (add_loop x (defaultTo pos POS_LAST) members st)
    as (clones & st' & Hrun & Htrace & Hlen & Hle & Hall & Hnodup).
  exists clones, st'. split; [| split; [| split; [| split; [| split]]]]; auto.
  - unfold add. rewrite Hv, Hc, Hw. cbn [negb unwrapContent].
    unfold contentGetter. cbn [typeof S_ isType asElement]. rewrite Hel.
    unfold bind at 1. unfold bind at 1. unfold ret at 1.
    unfold bind at 1. unfold lift at 1. cbn [iterate].
    rewrite Hrun. reflexivity.
  - eapply Forall_impl; [exact Hall |]. simpl. tauto.
  - eapply Forall_impl; [exact Hall |]. simpl. intros c [_ Hr].
    eapply Forall_impl; [exact Hr |]. simpl. intros r Hr' Hin.
    rewrite Forall_forall in Halloc. specialize (Halloc r Hin). lia.
Qed.

(** C9.  [getOptions(local, recompile, mark)] returns [local] itself when
    [local] carries the compiled marker and [recompile] (by default the
    [recompileOptions] option of the instance) is not true.  Otherwise the
    result is a merge in which a key of [local] has the value [local] gives
    it and every other key has the value of the base options. *)
Theorem getOptions_precedence (w : Wrapper) (local : option Options)
    (recompile mark : JSValue) :
  (∀ l, local = Some l -> WRAPPER_OPTS l = true -> recompileOf w recompile = false ->
        getOptions w local recompile mark = l)
  ∧ (carriesMarker local = false ∨ recompileOf w recompile = true ->
     ∀ key, props (getOptions w local recompile mark) !! key =
            match localProp local key with
            | Some v => Some v
            | None => props (options w) !! key
            end).
Proof.
  unfold recompileOf, getOptions. split.
  - intros l -> Hm Hr. simpl. rewrite Hm, Hr. reflexivity.
  - intros Hc key.
    assert (Hno : alreadyCompiled local
              (defaultTo recompile (prop (options w) "recompileOptions")) = false).
    { unfold alreadyCompiled. destruct local as [l |]; [| reflexivity].
      destruct Hc as [Hc | Hc]; simpl in Hc; rewrite Hc; [reflexivity |].
      apply andb_false_r. }
    rewrite Hno.
    assert (Hp : props (assign (options w) local) !! key =
                 match localProp local key with
                 | Some v => Some v
                 | None => props (options w) !! key
                 end).
    { destruct local as [l |]; simpl; [| reflexivity].
      rewrite lookup_union.
      destruct (props l !! key), (props (options w) !! key); reflexivity. }
    destruct (truthy (defaultTo mark (VBool true))); simpl; exact Hp.
Qed.

(** C10.  On an invalid instance [add], [addHTML] and [addText] all return
    the instance and do nothing.  On a valid instance [addHTML] and
    [addText] return undefined, while [add] returns the instance: it does so
    for every content on a single target and for every supported content on
    a collection, and it never returns anything else. *)
Theorem content_methods_return (w : Wrapper) (content : Content)
    (html text pos : JSValue) (st : Realm) :
  (isValid w = false ->
     add w content pos st = (Normal (AsWrapper w), st)
     ∧ addHTML w html pos st = (Normal (AsWrapper w), st)
     ∧ addText w text pos st = (Normal (AsWrapper w), st))
  ∧ (isValid w = true ->
     (isCollection w = true -> ∃ k items, wraps w = VColl k items) ->
     (∃ st', addHTML w html pos st = (Normal (AsValue VUndefined), st'))
     ∧ (∃ st', addText w text pos st = (Normal (AsValue VUndefined), st'))
     ∧ (isCollection w = false ∨ supported (unwrapContent content) ->
        ∃ st', add w content pos st = (Normal (AsWrapper w), st'))
     ∧ (∀ r st', add w content pos st = (Normal r, st') -> r = AsWrapper w)).
Proof.
  split.
  - intros Hv. unfold add, addHTML, addText. rewrite Hv. auto.
  - intros Hv Hcoll. unfold add, addHTML, addText. rewrite Hv. cbn [negb].
    destruct (isCollection w) eqn:Hc.
    + destruct (Hcoll eq_refl) as (k & items & Hw). rewrite Hw.
      repeat split.
      * unfold bind at 1. unfold bind at 1. unfold lift at 1. cbn [iterate].
        rewrite forEach_emit. unfold ret. eauto.
      * unfold bind at 1. unfold bind at 1. unfold lift at 1. cbn [iterate].
        rewrite forEach_emit. unfold ret. eauto.
      * intros [Hno | Hsup]; [discriminate |].
        destruct (contentGetter_total _ st Hsup) as (g & Hg & Htotal).
        unfold bind at 1. unfold bind at 1. rewrite Hg.
        unfold bind at 1. unfold lift at 1. cbn [iterate].
        destruct (forEach_total
                    (fun node => let* c := g in
                                 emit (CallAddContent node c (defaultTo pos POS_LAST)))
                    items) with (st := st) as [st' ->].
        { intros x st1. unfold bind. destruct (Htotal st1) as (c & st2 & ->).
          unfold emit. eauto. }
        unfold ret. eauto.
      * intros r st'. apply bind_const_inv.
    + repeat split.
      * unfold bind, emit, ret. eauto.
      * unfold bind, emit, ret. eauto.
      * intros _. unfold bind, emit, ret. eauto.
      * intros r st'. apply bind_const_inv.
Qed.

End Claims.

(** ** Further properties of the constructor and of option compilation *)

Section Construction.

Context `{WebCore}.

(** The constructor on a value that is not a string and has no length. *)
Lemma construct_plain (v : JSValue) (o : Options) (b : bool) (st : Realm) :
  typeof v ≠ TString ->
  getLength v = Normal None ->
  instanceOf v (nodeClassOf o) = Normal b ->
  construct v o st
  = (Normal (mkWrapper (nextRef st) v o v
               (U_isCollection v (Some (nodeClassOf o))) b),
     mkRealm (S (nextRef st)) (trace st)).
Proof.
  intros Hs Hlen Hinst.
  destruct v; try discriminate Hlen;
    unfold construct; fold (nodeClassOf o);
    unfold bind, ret, lift, fresh, lengthIs, lengthPositive;
    cbn [trace nextRef getLength getIndex];
    (destruct (truthy _ && U_isCollection _ _); cbn;
     destruct (U_isCollection _ _); cbn; rewrite Hinst; reflexivity).
Qed.

(** The constructor on a collection that is kept as a collection. *)
Lemma construct_kept (k : CollKind) (items : list JSValue) (o : Options)
    (st : Realm) :
  U_isCollection (VColl k items) (Some (nodeClassOf o)) = true ->
  separateSingleOf o = false ∨ length items ≠ 1 ->
  items ≠ [] ->
  construct (VColl k items) o st
  = (Normal (mkWrapper (nextRef st) (VColl k items) o (VColl k items) true true),
     mkRealm (S (nextRef st)) (trace st)).
Proof.
  intros Hcoll Hkeep Hne. unfold construct. fold (nodeClassOf o).
  unfold bind, ret, lift, fresh. cbn [trace nextRef].
  rewrite Hcoll. unfold lengthIs, lengthPositive. cbn [getLength].
  assert (Hlen : (0 <? length items) = true).
  { destruct items; [contradiction | reflexivity]. }
  destruct (truthy (coalesce (prop o "separateSingle") (VBool true))) eqn:Hss;
    cbn [andb].
  - assert (Hone : (length items =? 1) = false).
    { destruct Hkeep as [Hoff | Hneq].
      - unfold separateSingleOf in Hoff. congruence.
      - apply Nat.eqb_neq. exact Hneq. }
    rewrite Hone. cbn [getLength]. rewrite Hlen. reflexivity.
  - cbn [getLength]. rewrite Hlen. reflexivity.
Qed.

(** X1.  A string that is a valid tag name: the constructor creates a new,
    empty element with that tag and wraps it.  Under the default node class
    the instance is valid; the markup parser is not involved, and two
    objects have been made (the instance and the element). *)
Theorem construct_tag_name (tag : string) (o : Options) (st : Realm) :
  VALID_TAG tag = true ->
  nodeClassOf o = VClass ClsElement ->
  ∃ w, construct (VStr tag) o st
       = (Normal w, mkRealm (S (S (nextRef st))) (trace st))
     ∧ _wrapped w = VStr tag
     ∧ wraps w = VNode (mkNode (S (nextRef st)) (ElementKind tag) [] [])
     ∧ isValid w = true.
Proof.
  intros Htag Hct. unfold construct. fold (nodeClassOf o). rewrite Htag, Hct.
  unfold createElement, bind, ret, lift, fresh. cbn [trace nextRef].
  destruct (truthy _ && U_isCollection _ _); cbn;
    destruct (U_isCollection _ _); cbn; eauto 10.
Qed.

(** X2.  A collection of two or more members that [U.isCollection]
    recognises for the configured node class is wrapped as it is, as a
    valid collection instance, whatever [separateSingle] says: collapsing
    is for exactly one member, and past the recogniser the constructor
    reads nothing but the length. *)
Theorem construct_keeps_larger_collection (k : CollKind) (items : list JSValue)
    (o : Options) (st : Realm) :
  U_isCollection (VColl k items) (Some (nodeClassOf o)) = true ->
  2 ≤ length items ->
  construct (VColl k items) o st
  = (Normal (mkWrapper (nextRef st) (VColl k items) o (VColl k items) true true),
     mkRealm (S (nextRef st)) (trace st)).
Proof.
  intros Hcoll Hlen. apply construct_kept; [exact Hcoll | right; lia |].
  destruct items; [simpl in Hlen; lia | discriminate].
Qed.

(** X3.  A recognised collection whose only member does not pass the
    capability check: with [separateSingle] enabled the member is taken out
    and the instance is an invalid single target; with [separateSingle]
    disabled the very same input gives a valid collection instance. *)
Theorem construct_collapse_decides_validity (k : CollKind) (n : JSValue)
    (o : Options) (st : Realm) :
  U_isCollection (VColl k [n]) (Some (nodeClassOf o)) = true ->
  instanceOf n (nodeClassOf o) = Normal false ->
  (separateSingleOf o = true ->
     ∃ w st', construct (VColl k [n]) o st = (Normal w, st')
              ∧ isCollection w = false ∧ wraps w = n ∧ isValid w = false)
  ∧ (separateSingleOf o = false ->
     ∃ w st', construct (VColl k [n]) o st = (Normal w, st')
              ∧ isCollection w = true ∧ wraps w = VColl k [n] ∧ isValid w = true).
Proof.
  intros Hcoll Hinst. split; intros Hss.
  - unfold separateSingleOf in Hss. unfold construct. fold (nodeClassOf o).
    unfold bind, ret, lift, fresh; simpl. rewrite Hcoll, Hss; simpl.
    rewrite Hinst. eauto 10.
  - rewrite construct_kept; [eauto 10 | exact Hcoll | left; exact Hss | discriminate].
Qed.

End Construction.

Section Derived.

Context `{WebCore}.

(** Whatever [getOptions] returns with the default [mark] carries the
    marker. *)
Lemma getOptions_marked (w : Wrapper) (local : option Options) (recompile : JSValue) :
  WRAPPER_OPTS (getOptions w local recompile VUndefined) = true.
Proof.
  unfold getOptions. cbn [defaultTo truthy].
  destruct (alreadyCompiled local _) eqn:Hc; [| reflexivity].
  unfold alreadyCompiled in Hc. destruct local as [l |]; [| discriminate].
  apply andb_prop in Hc. tauto.
Qed.

(** X4.  Compiled options can be threaded through: what [getOptions] has
    returned (with the default [mark]) is returned unchanged when it is
    passed back as [local], for as long as recompilation is not asked
    for. *)
Theorem getOptions_threads_compiled (w : Wrapper) (local : option Options)
    (recompile recompile' mark' : JSValue) :
  recompileOf w recompile' = false ->
  getOptions w (Some (getOptions w local recompile VUndefined)) recompile' mark'
  = getOptions w local recompile VUndefined.
Proof.
  intros Hr. unfold recompileOf in Hr.
  pose proof (getOptions_marked w local recompile) as Hm.
  set (o := getOptions w local recompile VUndefined) in *.
  unfold getOptions at 1. unfold alreadyCompiled. rewrite Hm, Hr. reflexivity.
Qed.

(** The options of a derived instance, for a call without overrides. *)
Lemma getOptions_make_none (w : Wrapper) :
  getOptions w None (VBool true) (VBool false) = options w.
Proof. destruct w as [r o0 o v c b]. destruct o. reflexivity. Qed.

Lemma getOptions_make_children (w : Wrapper) :
  getOptions w
    (Some (mkOptions
             (<["separateSingle" := VBool false]>
                (<["expandChildren" := prop (options w) "expandChildren"]> ∅))
             false))
    (VBool true) (VBool false)
  = childOptions w.
Proof. reflexivity. Qed.

Lemma childOptions_nodeClass (w : Wrapper) :
  nodeClassOf (childOptions w) = nodeClassOf (options w).
Proof.
  unfold nodeClassOf, childOptions, prop. cbn [props].
  rewrite lookup_union_r; [reflexivity |].
  rewrite lookup_insert_ne by discriminate.
  rewrite lookup_insert_ne by discriminate. apply lookup_empty.
Qed.

Lemma childOptions_separateSingle (w : Wrapper) :
  separateSingleOf (childOptions w) = false.
Proof.
  unfold separateSingleOf, childOptions, prop. cbn [props].
  rewrite (lookup_union_Some_l _ _ "separateSingle" (VBool false))
    by apply lookup_insert_eq.
  reflexivity.
Qed.

(** [_make] around a node, without overrides. *)
Lemma make_node (w : Wrapper) (c : Node) (b : bool) (st : Realm) :
  instanceOf (VNode c) (nodeClassOf (options w)) = Normal b ->
  _make w (VNode c) None st
  = (Normal (wrapperOf w (fun _ => b) (nextRef st) c),
     mkRealm (S (nextRef st)) (trace st)).
Proof.
  intros Hinst. unfold _make. rewrite getOptions_make_none.
  apply construct_plain; [discriminate | reflexivity | exact Hinst].
Qed.

(** [children] of a single target with element children. *)
Lemma children_single_result (w : Wrapper) (n : Node) (st : Realm) :
  singleOf w n ->
  let kids := VColl KHTMLCollection (map VNode (elementChildren n)) in
  U_isCollection kids (Some (nodeClassOf (options w))) = true ->
  elementChildren n ≠ [] ->
  children w st
  = (Normal (mkWrapper (nextRef st) kids (childOptions w) kids true true),
     mkRealm (S (nextRef st)) (trace st)).
Proof.
  intros (Hv & Hc & Hw & Hel) kids Hcoll Hne.
  unfold children. rewrite Hv, Hc, Hw. cbn [negb getChildren]. rewrite Hel.
  unfold bind at 1. unfold lift at 1. unfold _make.
  rewrite getOptions_make_children. apply construct_kept.
  - rewrite childOptions_nodeClass. exact Hcoll.
  - left. apply childOptions_separateSingle.
  - intros Hnil. apply Hne. apply (f_equal length) in Hnil.
    rewrite length_map in Hnil. destruct (elementChildren n); [reflexivity | discriminate].
Qed.

(** X5.  [children] of a single target with at least one element child: a
    new instance around the collection of the element children, with
    [separateSingle] forced off, so that it is a collection instance even
    when there is exactly one child and the instance itself collapses single
    members. *)
Theorem children_of_single_stay_collection (w : Wrapper) (n : Node) (st : Realm) :
  singleOf w n ->
  let kids := VColl KHTMLCollection (map VNode (elementChildren n)) in
  U_isCollection kids (Some (nodeClassOf (options w))) = true ->
  elementChildren n ≠ [] ->
  children w st
  = (Normal (mkWrapper (nextRef st) kids (childOptions w) kids true true),
     mkRealm (S (nextRef st)) (trace st))
  ∧ separateSingleOf (childOptions w) = false
  ∧ expandChildrenOf (mkWrapper (nextRef st) kids (childOptions w) kids true true)
    = expandChildrenOf w.
Proof.
  intros Hsingle kids Hcoll Hne. split; [| split].
  - apply children_single_result; assumption.
  - apply childOptions_separateSingle.
  - unfold expandChildrenOf, childOptions, prop. cbn [options props].
    rewrite (lookup_union_Some_l _ _ "expandChildren"
               (default VUndefined (props (options w) !! "expandChildren")));
      [reflexivity |].
    rewrite lookup_insert_ne by discriminate. apply lookup_insert_eq.
Qed.

(** The inner loop of the expanding [children], over element members. *)
Lemma children_loop (ns : list Node) (st : Realm) :
  Forall (fun n => isElementNode n = true) ns ->
  collect (map VNode ns) childrenOf st
  = (Normal (flat_map (fun n => map VNode (elementChildren n)) ns), st).
Proof.
  intros Hall. revert st. induction Hall as [| n ns Hn _ IH]; intros st.
  - reflexivity.
  - cbn [map collect flat_map]. unfold bind at 1. unfold childrenOf at 1.
    unfold bind at 1. unfold lift at 1. cbn [getChildren]. rewrite Hn.
    unfold lift at 1. cbn [iterate]. unfold bind at 1. rewrite IH. reflexivity.
Qed.

(** X6.  [children] of a collection of elements with [expandChildren] on: a
    new collection instance around the element children of every member,
    in member order and, within one member, in document order. *)
Theorem children_expanded_flatten (w : Wrapper) (ns : list Node) (st : Realm) :
  collectionOf w (map VNode ns) ->
  Forall (fun n => isElementNode n = true) ns ->
  expandChildrenOf w = true ->
  let kids := VColl KArray (flat_map (fun n => map VNode (elementChildren n)) ns) in
  U_isCollection kids (Some (nodeClassOf (options w))) = true ->
  flat_map elementChildren ns ≠ [] ->
  children w st
  = (Normal (mkWrapper (nextRef st) kids (childOptions w) kids true true),
     mkRealm (S (nextRef st)) (trace st)).
Proof.
  intros (Hv & Hc & k & Hw) Hall Hex kids Hcoll Hne.
  unfold children. unfold expandChildrenOf in Hex. rewrite Hv, Hc, Hex, Hw.
  cbn [negb iterate]. unfold bind at 1. unfold lift at 1.
  unfold bind at 1. rewrite (children_loop ns st Hall).
  unfold _make. rewrite getOptions_make_children. apply construct_kept.
  - rewrite childOptions_nodeClass. exact Hcoll.
  - left. apply childOptions_separateSingle.
  - intros Hnil. apply Hne. clear -Hnil. induction ns as [| n ns IH]; [reflexivity |].
    cbn [flat_map] in *. apply app_eq_nil in Hnil as [Hn Hns].
    rewrite (IH Hns), app_nil_r.
    destruct (elementChildren n); [reflexivity | discriminate].
Qed.

(** X7.  The expanding [children] does not skip a member that is not an
    element: at the first such node, a text node say, it stops with a
    TypeError, and no instance has been made. *)
Theorem children_expanded_reject_text (w : Wrapper) (pre : list Node) (t : Node)
    (post : list JSValue) (st : Realm) :
  collectionOf w (map VNode pre ++ VNode t :: post) ->
  Forall (fun n => isElementNode n = true) pre ->
  isElementNode t = false ->
  expandChildrenOf w = true ->
  children w st = (Throw (TypeError "value is not iterable"), st).
Proof.
  intros (Hv & Hc & k & Hw) Hall Ht Hex.
  unfold children. unfold expandChildrenOf in Hex. rewrite Hv, Hc, Hex, Hw.
  cbn [negb iterate]. unfold bind at 1. unfold lift at 1. unfold bind at 1.
  assert (Hloop : ∀ st, collect (map VNode pre ++ VNode t :: post) childrenOf st
                        = (Throw (TypeError "value is not iterable"), st)).
  { clear -Hall Ht. induction Hall as [| n ns Hn _ IH]; intros st.
    - cbn [map app collect]. unfold bind at 1. unfold childrenOf at 1.
      unfold bind at 1. unfold lift at 1. cbn [getChildren]. rewrite Ht.
      reflexivity.
    - cbn [map app collect]. unfold bind at 1. unfold childrenOf at 1.
      unfold bind at 1. unfold lift at 1. cbn [getChildren]. rewrite Hn.
      unfold lift at 1. cbn [iterate]. unfold bind at 1. rewrite IH. reflexivity. }
  rewrite Hloop. reflexivity.
Qed.

(** The loop of [wrappedChildren]: one new instance per node, numbered in
    order. *)
Lemma wrapped_loop (w : Wrapper) (b : Node -> bool) (cs : list Node) :
  (∀ c, c ∈ cs -> instanceOf (VNode c) (nodeClassOf (options w)) = Normal (b c)) ->
  ∀ st,
    collect (map VNode cs)
      (fun node => let* wrappedNode := _make w node None in ret [wrappedNode]) st
    = (Normal (imap (fun i c => wrapperOf w b (nextRef st + i) c) cs),
       mkRealm (nextRef st + length cs) (trace st)).
Proof.
  induction cs as [| c cs IH]; intros Hinst st.
  - cbn. unfold ret. rewrite Nat.add_0_r. destruct st; reflexivity.
  - cbn [map collect imap length]. unfold bind at 1. unfold bind at 1.
    rewrite (make_node w c (b c)) by (apply Hinst; left).
    unfold ret at 1. unfold bind at 1.
    rewrite IH by (intros c' Hc'; apply Hinst; right; exact Hc').
    unfold ret. cbn [nextRef trace app].
    rewrite Nat.add_0_r. f_equal.
    + f_equal. f_equal. apply imap_ext. intros i c' _. cbn.
      f_equal. lia.
    + f_equal. lia.
Qed.

(** X8.  [wrappedChildren] of a single target with element children
    [c1 .. cn]: after the instance for the child set, one new single-target
    instance per child, in document order, each around its child and with
    the base options of this instance. *)
Theorem wrappedChildren_of_single (w : Wrapper) (n : Node) (c : JSClass) (st : Realm) :
  singleOf w n ->
  nodeClassOf (options w) = VClass c ->
  U_isCollection (VColl KHTMLCollection (map VNode (elementChildren n)))
    (Some (nodeClassOf (options w))) = true ->
  elementChildren n ≠ [] ->
  wrappedChildren w st
  = (Normal (imap (fun i child =>
                     wrapperOf w (fun x => classInstance (VNode x) c)
                       (S (nextRef st) + i) child)
               (elementChildren n)),
     mkRealm (S (nextRef st) + length (elementChildren n)) (trace st)).
Proof.
  intros Hsingle Hct Hcoll Hne.
  pose proof (children_single_result w n st Hsingle Hcoll Hne) as Hkids.
  destruct Hsingle as (Hv & _).
  unfold wrappedChildren. rewrite Hv. cbn [negb].
  unfold bind at 1. rewrite Hkids. cbn [isValid isCollection negb wraps].
  unfold bind at 1. unfold lift at 1. cbn [iterate].
  rewrite (wrapped_loop w (fun x => classInstance (VNode x) c)).
  - reflexivity.
  - intros c' _. rewrite Hct. reflexivity.
Qed.

(** [firstElement] and [lastElement] of a collection, without descent. *)
Lemma first_last_members (w : Wrapper) (x : JSValue) (rest : list JSValue) :
  collectionOf w (x :: rest) -> expandChildrenOf w = false ->
  firstElement w = Normal x
  ∧ lastElement w = Normal (default x (last (x :: rest))).
Proof.
  intros (Hv & Hc & k & Hw) Hex. unfold expandChildrenOf in Hex.
  unfold firstElement, lastElement. rewrite Hv, Hc, Hw, Hex.
  cbn [negb getLength getIndex lastIndex]. split; [reflexivity |].
  replace (Z.of_nat (length (x :: rest)) - 1 <? 0)%Z with false
    by (symmetry; apply Z.ltb_ge; cbn [length]; lia).
  rewrite last_lookup.
  replace (Z.to_nat (Z.of_nat (length (x :: rest)) - 1))
    with (pred (length (x :: rest))) by (cbn [length]; lia).
  destruct ((x :: rest) !! pred (length (x :: rest))) eqn:Hl; [reflexivity |].
  apply lookup_ge_None in Hl. cbn [length] in Hl. simpl in Hl. lia.
Qed.

(** The constructor on null or undefined. *)
Lemma construct_nullish (v : JSValue) (o : Options) (c : JSClass) (st : Realm) :
  nullish v = true ->
  nodeClassOf o = VClass c ->
  U_isCollection v (Some (VClass c)) = false ->
  construct v o st
  = (Normal (mkWrapper (nextRef st) v o v false false),
     mkRealm (S (nextRef st)) (trace st)).
Proof.
  intros Hnull Hct Hcoll.
  destruct v; try discriminate Hnull;
    unfold construct; fold (nodeClassOf o); rewrite Hct;
    unfold bind, ret, lift, fresh; cbn [trace nextRef];
    rewrite Hcoll; rewrite andb_false_r; reflexivity.
Qed.

(** X9.  Without [expandChildren], [firstElement] and [lastElement] of a
    valid collection are its first and its last member themselves, nothing
    below them; on an invalid instance both are null. *)
Theorem first_last_of_collection (w : Wrapper) (x : JSValue) (rest : list JSValue) :
  (collectionOf w (x :: rest) -> expandChildrenOf w = false ->
     firstElement w = Normal x
     ∧ lastElement w = Normal (default x (last (x :: rest))))
  ∧ (isValid w = false ->
     firstElement w = Normal VNull ∧ lastElement w = Normal VNull).
Proof.
  split.
  - apply first_last_members.
  - intros Hv. unfold firstElement, lastElement. rewrite Hv. split; reflexivity.
Qed.

(** X10.  [first] and [last] build a new instance at every call, with the
    base options.  On a valid collection of nodes without [expandChildren]
    it is a single-target instance around the first or the last member.  On
    an invalid instance it is a new invalid instance around null, where
    [children] would have returned the instance itself. *)
Theorem first_last_build_instances (w : Wrapper) (c : JSClass) (st : Realm) :
  nodeClassOf (options w) = VClass c ->
  (∀ x rest y,
     collectionOf w (VNode x :: rest) -> expandChildrenOf w = false ->
     last (VNode x :: rest) = Some (VNode y) ->
     first w st
     = (Normal (wrapperOf w (fun n => classInstance (VNode n) c) (nextRef st) x),
        mkRealm (S (nextRef st)) (trace st))
     ∧ last_ w st
       = (Normal (wrapperOf w (fun n => classInstance (VNode n) c) (nextRef st) y),
          mkRealm (S (nextRef st)) (trace st)))
  ∧ (isValid w = false -> U_isCollection VNull (Some (VClass c)) = false ->
     first w st
     = (Normal (mkWrapper (nextRef st) VNull (options w) VNull false false),
        mkRealm (S (nextRef st)) (trace st))
     ∧ last_ w st = first w st).
Proof.
  intros Hct. split.
  - intros x rest y Hcoll Hex Hlast.
    destruct (first_last_members w (VNode x) rest Hcoll Hex) as [Hfirst Hl].
    rewrite Hlast in Hl. cbn [default] in Hl.
    unfold first, last_, bind, lift. rewrite Hfirst, Hl.
    split; apply make_node; rewrite Hct; reflexivity.
  - intros Hv Hnull.
    assert (Hf : firstElement w = Normal VNull)
      by (unfold firstElement; rewrite Hv; reflexivity).
    assert (Hl : lastElement w = Normal VNull)
      by (unfold lastElement; rewrite Hv; reflexivity).
    unfold first, last_, bind, lift. rewrite Hf, Hl. split; [| reflexivity].
    unfold _make. rewrite getOptions_make_none.
    apply (construct_nullish VNull (options w) c); [reflexivity | exact Hct | exact Hnull].
Qed.

End Derived.

(** ** Further properties of the lookups *)

Section Lookups.

Context `{WebCore}.

(** X11.  [get(i)] with a number on a single target, results not wrapped:
    the i-th element child, counted from 0, and undefined for a negative
    index and for an index past the last child.  Nothing is called and
    nothing is thrown. *)
Theorem get_index_of_single (w : Wrapper) (n : Node) (i : Z)
    (opts : option Options) (st : Realm) :
  singleOf w n ->
  wrapQueriesOf (getOptions w opts VUndefined VUndefined) = false ->
  (∀ c, (0 ≤ i)%Z -> elementChildren n !! Z.to_nat i = Some c ->
        get w (VNum i) opts st = (Normal (plain (AsValue (VNode c))), st))
  ∧ ((i < 0)%Z ∨ length (elementChildren n) ≤ Z.to_nat i ->
     get w (VNum i) opts st = (Normal (plain (AsValue VUndefined)), st)).
Proof.
  intros (Hv & Hc & Hw & Hel) Hraw.
  assert (Hget : get w (VNum i) opts st
    = (Normal (plain (AsValue
         (if (i <? 0)%Z then VUndefined
          else default VUndefined (map VNode (elementChildren n) !! Z.to_nat i)))),
       st)).
  { unfold get. fold (wrapQueriesOf (getOptions w opts VUndefined VUndefined)).
    rewrite Hraw, Hv, Hc, Hw. cbn [negb typeof isType N_ getChildren].
    rewrite Hel. reflexivity. }
  rewrite Hget. split.
  - intros c Hpos Hlook.
    replace (i <? 0)%Z with false by (symmetry; apply Z.ltb_ge; lia).
    rewrite list_lookup_fmap, Hlook. reflexivity.
  - intros [Hneg | Hpast].
    + replace (i <? 0)%Z with true by (symmetry; apply Z.ltb_lt; lia). reflexivity.
    + destruct (i <? 0)%Z; [reflexivity |].
      rewrite list_lookup_fmap, (lookup_ge_None_2 _ _ Hpast). reflexivity.
Qed.

(** X12.  [get(i)] with a number on a valid collection without
    [expandChildren], results not wrapped: the i-th member of the collection
    itself, not a child of a member, and undefined out of range; no
    instance is made on the way. *)
Theorem get_index_of_collection (w : Wrapper) (members : list JSValue) (i : Z)
    (opts : option Options) (st : Realm) :
  collectionOf w members ->
  expandChildrenOf w = false ->
  wrapQueriesOf (getOptions w opts VUndefined VUndefined) = false ->
  (∀ m, (0 ≤ i)%Z -> members !! Z.to_nat i = Some m ->
        get w (VNum i) opts st = (Normal (plain (AsValue m)), st))
  ∧ ((i < 0)%Z ∨ length members ≤ Z.to_nat i ->
     get w (VNum i) opts st = (Normal (plain (AsValue VUndefined)), st)).
Proof.
  intros (Hv & Hc & k & Hw) Hex Hraw.
  assert (Hkids : children w st = (Normal w, st)).
  { unfold children. unfold expandChildrenOf in Hex. rewrite Hv, Hc, Hex. reflexivity. }
  assert (Hget : get w (VNum i) opts st
    = (Normal (plain (AsValue
         (if (i <? 0)%Z then VUndefined
          else default VUndefined (members !! Z.to_nat i)))),
       st)).
  { unfold get. fold (wrapQueriesOf (getOptions w opts VUndefined VUndefined)).
    rewrite Hraw, Hv, Hc. cbn [negb typeof isType N_].
    unfold bind at 1. rewrite Hkids. rewrite Hw. reflexivity. }
  rewrite Hget. split.
  - intros m Hpos Hlook.
    replace (i <? 0)%Z with false by (symmetry; apply Z.ltb_ge; lia).
    rewrite Hlook. reflexivity.
  - intros [Hneg | Hpast].
    + replace (i <? 0)%Z with true by (symmetry; apply Z.ltb_lt; lia). reflexivity.
    + destruct (i <? 0)%Z; [reflexivity |].
      rewrite (lookup_ge_None_2 _ _ Hpast). reflexivity.
Qed.

(** The selector loop of [get()] when no element member has a match. *)
Lemma get_loop_miss (sel : string) (members : list JSValue) :
  (∀ n, n ∈ elementsOf members -> querySelector n sel = None) ->
  ∀ st, getFirst members sel st
        = (Normal VUndefined,
           logged st (map (fun n => CallQuerySelector n sel) (elementsOf members))).
Proof.
  induction members as [| m members IH]; intros Hmiss st.
  - cbn. unfold ret. rewrite logged_nil. reflexivity.
  - cbn [getFirst]. unfold elementsOf in *. cbn [omap list_omap] in *.
    destruct (asElement m) as [n |] eqn:Hm.
    + unfold selectOne. rewrite Hm. rewrite (Hmiss n) by (left).
      unfold bind at 1. unfold bind at 1. unfold emit at 1. unfold ret at 1.
      cbn [truthy]. rewrite IH by (intros n' Hn'; apply Hmiss; right; exact Hn').
      fold (logged st [CallQuerySelector n sel]). rewrite logged_app. reflexivity.
    + apply IH. exact Hmiss.
Qed.

(** X13.  A selector that matches nothing, results not wrapped: on a valid
    collection [get(selector)] asks every element member, in order, and
    returns undefined; on a single target it asks once and returns null. *)
Theorem get_selector_without_match (w : Wrapper) (sel : string)
    (opts : option Options) (st : Realm) :
  wrapQueriesOf (getOptions w opts VUndefined VUndefined) = false ->
  (∀ members, collectionOf w members ->
     (∀ n, n ∈ elementsOf members -> querySelector n sel = None) ->
     get w (VStr sel) opts st
     = (Normal (plain (AsValue VUndefined)),
        logged st (map (fun n => CallQuerySelector n sel) (elementsOf members))))
  ∧ (∀ n, singleOf w n -> querySelector n sel = None ->
     get w (VStr sel) opts st
     = (Normal (plain (AsValue VNull)), logged st [CallQuerySelector n sel])).
Proof.
  intros Hraw. split.
  - intros members (Hv & Hc & k & Hw) Hmiss.
    unfold get. fold (wrapQueriesOf (getOptions w opts VUndefined VUndefined)).
    rewrite Hraw, Hv, Hc, Hw. cbn [negb typeof isType N_ S_ iterate].
    unfold bind at 1. unfold lift at 1. unfold bind at 1.
    rewrite (get_loop_miss sel members Hmiss). reflexivity.
  - intros n (Hv & Hc & Hw & Hel) Hmiss.
    unfold get. fold (wrapQueriesOf (getOptions w opts VUndefined VUndefined)).
    rewrite Hraw, Hv, Hc, Hw. cbn [negb typeof isType N_ S_].
    unfold selectOne. cbn [asElement]. rewrite Hel, Hmiss. reflexivity.
Qed.

(** X14.  When [get(selector)] wraps its result, the new instance is built
    with the base options of this instance: options given to the call
    decide how the call behaves but are not handed on.  The instance wraps
    the match and is valid when the match passes the capability check. *)
Theorem get_wraps_with_base_options (w : Wrapper) (pre post : list JSValue)
    (a hit : Node) (c : JSClass) (sel : string) (opts : option Options) (st : Realm) :
  collectionOf w (pre ++ VNode a :: post) ->
  isElementNode a = true ->
  querySelector a sel = Some hit ->
  (∀ n, n ∈ elementsOf pre -> querySelector n sel = None) ->
  nodeClassOf (options w) = VClass c ->
  wrapQueriesOf (getOptions w opts VUndefined VUndefined) = true ->
  get w (VStr sel) opts st
  = (Normal (plain (AsWrapper
       (wrapperOf w (fun x => classInstance (VNode x) c) (nextRef st) hit))),
     mkRealm (S (nextRef st))
       (trace st ++ map (fun n => CallQuerySelector n sel) (elementsOf pre ++ [a]))).
Proof.
  intros (Hv & Hc & k & Hw) Ha Hhit Hpre Hct Hwrap.
  unfold get. fold (wrapQueriesOf (getOptions w opts VUndefined VUndefined)).
  rewrite Hwrap, Hv, Hc, Hw. cbn [negb typeof isType N_ S_ iterate].
  unfold bind at 1. unfold lift at 1. unfold bind at 1.
  rewrite (get_loop sel a hit post Ha Hhit pre st Hpre).
  unfold wrapResult. unfold bind at 1. unfold bind at 1.
  rewrite (make_node w hit (classInstance (VNode hit) c))
    by (rewrite Hct; reflexivity).
  reflexivity.
Qed.

(** X15.  [find()] on an invalid instance.  A selector gives none without
    any call of the selector engine; a function gives none by way of
    [query()], which does not call its engine either (here with
    [queryDetails] off); and a query of any other type is a TypeError, for
    [find()] looks at the type of the query before it looks at the
    instance. *)
Theorem find_on_invalid (w : Wrapper) (q : JSValue) (opts : option Options)
    (st : Realm) :
  isValid w = false ->
  let o :=
    getOptions w (Some (default (mkOptions ∅ false) opts)) VUndefined VUndefined in
  let none := (let* r := wrapResult w (wrapQueriesOf o) VNull in ret (plain r)) st in
  (typeof q = TString -> find w q opts st = none)
  ∧ (typeof q = TFunction -> queryDetailsOf o = false -> find w q opts st = none)
  ∧ (typeof q ≠ TString -> typeof q ≠ TFunction ->
     find w q opts st = (Throw (TypeError "invalid find() query type"), st)).
Proof.
  intros Hv o none.
  assert (Ho : getOptions w (Some match opts with
                                  | Some o0 => o0
                                  | None => mkOptions ∅ false
                                  end) VUndefined VUndefined = o).
  { destruct opts; reflexivity. }
  split; [| split].
  - intros Hq. unfold find. rewrite Hq, Hv, Ho. cbn [isType F_ S_ negb].
    fold (wrapQueriesOf o). unfold bind at 1. unfold ret at 1. reflexivity.
  - intros Hq Hinfo. unfold find. rewrite Hq, Ho. cbn [isType F_].
    unfold query.
    rewrite (getOptions_marked w (Some (default (mkOptions ∅ false) opts)) VUndefined
             : WRAPPER_OPTS o = true).
    fold (wrapQueriesOf o). fold (queryDetailsOf o). rewrite Hinfo, Hv.
    cbn [negb orb]. unfold bind at 1. unfold ret at 1. reflexivity.
  - intros Hs Hf. unfold find.
    destruct (typeof q); try contradiction; reflexivity.
Qed.

(** X16.  [query()] called without any argument returns none, on a valid
    instance as well: the engine is not called.  (Here with [queryDetails]
    off in the base options.) *)
Theorem query_without_arguments (w : Wrapper) (st : Realm) :
  let o := getOptions w None VUndefined VUndefined in
  queryDetailsOf o = false ->
  query w [] st = (let* r := wrapResult w (wrapQueriesOf o) VNull in ret (plain r)) st.
Proof.
  intros o Hinfo. unfold query. fold o.
  fold (wrapQueriesOf o). fold (queryDetailsOf o). rewrite Hinfo.
  cbn [orb]. unfold bind at 1. unfold ret at 1. reflexivity.
Qed.

(** The collection loop of [query()] with details. *)
Lemma query_loop (args : list QArg) (members : list JSValue) :
  collectionsIterable ->
  ∀ st, queryMembers true args members st
        = (Normal
             (flat_map (fun n => hitsOf (found (Q_findWith (VNode n) args)))
                (elementsOf members),
              map (fun n => Q_findWith (VNode n) args) (elementsOf members)),
           logged st (map (fun n => CallFindWith (VNode n) args) (elementsOf members))).
Proof.
  intros Hiter. induction members as [| m members IH]; intros st.
  - cbn. unfold ret. rewrite logged_nil. reflexivity.
  - cbn [queryMembers]. unfold bind at 1.
    unfold elementsOf in *. cbn [omap list_omap].
    unfold queryMember at 1.
    destruct (asElement m) as [n |] eqn:Hm.
    + assert (Hmn : m = VNode n).
      { destruct m; try discriminate. cbn in Hm.
        destruct (isElementNode n0); congruence. }
      subst m. unfold engine. unfold bind at 1. unfold bind at 1.
      unfold emit at 1. unfold ret at 1.
      set (r := Q_findWith (VNode n) args).
      set (st1 := mkRealm (nextRef st) (trace st ++ [CallFindWith (VNode n) args])).
      assert (Hhits :
        (if truthy (found r)
         then match asElement (found r) with
              | Some _ => ret ([found r], [r])
              | None =>
                  if U_isCollection (found r) None
                  then let* subnodes := lift (iterate (found r)) in ret (subnodes, [r])
                  else ret ([], [r])
              end
         else ret ([], [r])) st1 = (Normal (hitsOf (found r), [r]), st1)).
      { unfold hitsOf. destruct (truthy (found r)); [| reflexivity].
        destruct (asElement (found r)); [reflexivity |].
        destruct (U_isCollection (found r) None) eqn:Hcoll; [| reflexivity].
        destruct (Hiter _ Hcoll) as [items Hitems].
        unfold bind, lift, ret. rewrite Hitems. reflexivity. }
      rewrite Hhits. unfold bind at 1. rewrite IH. unfold ret.
      cbn [fst snd flat_map map app]. subst st1 r.
      fold (logged st [CallFindWith (VNode n) args]). rewrite logged_app.
      reflexivity.
    + unfold ret at 1. unfold bind at 1. rewrite IH. reflexivity.
Qed.

(** The collection loop of [query()] without details. *)
Lemma query_loop_plain (args : list QArg) (members : list JSValue) :
  collectionsIterable ->
  ∀ st, queryMembers false args members st
        = (Normal
             (flat_map (fun n => hitsOf (Q_find (VNode n) args)) (elementsOf members),
              []),
           logged st (map (fun n => CallFind (VNode n) args) (elementsOf members))).
Proof.
  intros Hiter. induction members as [| m members IH]; intros st.
  - cbn. unfold ret. rewrite logged_nil. reflexivity.
  - cbn [queryMembers]. unfold bind at 1.
    unfold elementsOf in *. cbn [omap list_omap].
    unfold queryMember at 1.
    destruct (asElement m) as [n |] eqn:Hm.
    + assert (Hmn : m = VNode n).
      { destruct m; try discriminate. cbn in Hm.
        destruct (isElementNode n0); congruence. }
      subst m. unfold engine. unfold bind at 1. unfold bind at 1.
      unfold emit at 1. unfold ret at 1.
      set (r := Q_find (VNode n) args).
      set (st1 := mkRealm (nextRef st) (trace st ++ [CallFind (VNode n) args])).
      assert (Hhits :
        (if truthy r
         then match asElement r with
              | Some _ => ret ([r], [])
              | None =>
                  if U_isCollection r None
                  then let* subnodes := lift (iterate r) in
                       ret (subnodes, @nil FindResult)
                  else ret ([], [])
              end
         else ret ([], [])) st1 = (Normal (hitsOf r, []), st1)).
      { unfold hitsOf. destruct (truthy r); [| reflexivity].
        destruct (asElement r); [reflexivity |].
        destruct (U_isCollection r None) eqn:Hcoll; [| reflexivity].
        destruct (Hiter _ Hcoll) as [items Hitems].
        unfold bind, lift, ret. rewrite Hitems. reflexivity. }
      rewrite Hhits. unfold bind at 1. rewrite IH. unfold ret.
      cbn [fst snd flat_map map app]. subst st1 r.
      fold (logged st [CallFind (VNode n) args]). rewrite logged_app.
      reflexivity.
    + unfold ret at 1. unfold bind at 1. rewrite IH. reflexivity.
Qed.

(** [query()] on a valid collection, with compiled options and without
    details. *)
Lemma query_collection_plain (w : Wrapper) (members : list JSValue)
    (o : Options) (args : list QArg) (st : Realm) :
  collectionOf w members ->
  collectionsIterable ->
  WRAPPER_OPTS o = true ->
  queryDetailsOf o = false ->
  query w (ArgOptions o :: args) st
  = (let* r := wrapResult w (wrapQueriesOf o)
                 (VColl KArray
                    (flat_map (fun n => hitsOf (Q_find (VNode n) (engineArgs o args)))
                       (elementsOf members))) in
     ret (plain r))
      (logged st (map (fun n => CallFind (VNode n) (engineArgs o args))
                    (elementsOf members))).
Proof.
  intros (Hv & Hc & k & Hw) Hiter Hm Hinfo.
  unfold query. rewrite Hm.
  fold (wrapQueriesOf o). fold (queryDetailsOf o). fold (engineArgs o args).
  rewrite Hinfo, Hv, Hc, Hw. cbn [negb orb iterate].
  unfold bind at 1. unfold bind at 1. unfold lift at 1. unfold bind at 1.
  rewrite (query_loop_plain (engineArgs o args) members Hiter).
  unfold ret at 1. cbn [fst snd]. reflexivity.
Qed.

(** X17.  A function as the query, on a valid collection (details off).
    Both [find(fn)] and [get(fn)] hand over to [query()]: the engine is
    called once per element member, in order, with [true] (for [find]) or
    [false] (for [get]) and the function as its arguments, and the result
    is the array of the hits of all members.  So [get(fn)] on a collection
    does not stop at the first hit and can return several nodes. *)
Theorem function_query_on_collection (w : Wrapper) (members : list JSValue)
    (q : JSValue) (opts : option Options) (st : Realm) :
  collectionOf w members ->
  collectionsIterable ->
  typeof q = TFunction ->
  (let o := getOptions w (Some (default (mkOptions ∅ false) opts))
              VUndefined VUndefined in
   let sent := engineArgs o [ArgValue (VBool true); ArgValue q] in
   queryDetailsOf o = false ->
   find w q opts st
   = (let* r := wrapResult w (wrapQueriesOf o)
                  (VColl KArray
                     (flat_map (fun n => hitsOf (Q_find (VNode n) sent))
                        (elementsOf members))) in
      ret (plain r))
       (logged st (map (fun n => CallFind (VNode n) sent) (elementsOf members))))
  ∧ (let o := getOptions w opts VUndefined VUndefined in
     let sent := engineArgs o [ArgValue (VBool false); ArgValue q] in
     queryDetailsOf o = false ->
     get w q opts st
     = (let* r := wrapResult w (wrapQueriesOf o)
                    (VColl KArray
                       (flat_map (fun n => hitsOf (Q_find (VNode n) sent))
                          (elementsOf members))) in
        ret (plain r))
         (logged st (map (fun n => CallFind (VNode n) sent) (elementsOf members)))).
Proof.
  intros Hcoll Hiter Hq. split.
  - intros o sent Hinfo. unfold find. rewrite Hq. cbn [isType F_].
    replace (match opts with Some o0 => o0 | None => mkOptions ∅ false end)
      with (default (mkOptions ∅ false) opts) by (destruct opts; reflexivity).
    fold o. apply query_collection_plain; try assumption.
    apply getOptions_marked.
  - intros o sent Hinfo. destruct Hcoll as (Hv & Hc & k & Hw).
    unfold get. rewrite Hv, Hq. cbn [negb isType N_ S_ F_]. fold o.
    apply query_collection_plain; try assumption.
    + split; [exact Hv |]. split; [exact Hc |]. exists k. exact Hw.
    + apply getOptions_marked.
Qed.

(** X18.  [query()] with details on a valid collection, called with compiled
    options: the engine is called once for every element member, in member
    order, with the arguments of the call followed by [getNested];
    [$findWith] gets one record per element member, hit or miss, and the
    results are the hits of every record in the same order. *)
Theorem query_details_per_member (w : Wrapper) (members : list JSValue)
    (o : Options) (args : list QArg) (st : Realm) :
  collectionOf w members ->
  collectionsIterable ->
  WRAPPER_OPTS o = true ->
  queryDetailsOf o = true ->
  let sent := engineArgs o args in
  let records := map (fun n => Q_findWith (VNode n) sent) (elementsOf members) in
  let results := flat_map (fun r => hitsOf (found r)) records in
  let st' := logged st (map (fun n => CallFindWith (VNode n) sent) (elementsOf members)) in
  query w (ArgOptions o :: args) st
  = (let* r := wrapResult w (wrapQueriesOf o) (VColl KArray results) in
     ret (mkQueryReturn r (Some records) (Some o))) st'.
Proof.
  intros (Hv & Hc & k & Hw) Hiter Hm Hinfo sent records results st'.
  unfold query. rewrite Hm.
  fold (wrapQueriesOf o). fold (queryDetailsOf o). fold (engineArgs o args).
  fold sent. rewrite Hinfo, Hv, Hc, Hw. cbn [negb orb iterate].
  unfold bind at 1. unfold bind at 1. unfold lift at 1. unfold bind at 1.
  rewrite (query_loop sent members Hiter). unfold ret at 1. cbn [fst snd].
  fold st'. fold records.
  replace (flat_map (fun n => hitsOf (found (Q_findWith (VNode n) sent)))
             (elementsOf members)) with results
    by (unfold results, records; clear; induction (elementsOf members) as [| n l IH];
        [reflexivity | cbn; rewrite IH; reflexivity]).
  unfold wrapResult. destruct (wrapQueriesOf o).
  - unfold bind. destruct (_make w (VColl KArray results) None st') as [[w' | e] st2];
      reflexivity.
  - reflexivity.
Qed.

End Lookups.

(** ** Further properties of the content methods, [each] and the accessors *)

Section Mutation.

Context `{WebCore}.

(** Loops whose bodies agree do the same. *)
Lemma forEach_ext {A} (body body' : A -> M unit) (l : list A) :
  (∀ x st, body x st = body' x st) ->
  ∀ st, forEach l body st = forEach l body' st.
Proof.
  intros Hext. induction l as [| x l IH]; intros st; cbn [forEach]; [reflexivity |].
  unfold bind. rewrite Hext. destruct (body' x st) as [[u | e] st1]; [apply IH | reflexivity].
Qed.

(** X19.  [add(text)] with a string on a valid collection hands the same
    string to the content inserter once per member, in member order, at the
    given position ([POS.LAST] by default); nothing is cloned, no object is
    made, and the instance is returned. *)
Theorem add_string_to_each_member (w : Wrapper) (members : list JSValue)
    (s : string) (pos : JSValue) (st : Realm) :
  collectionOf w members ->
  add w (ContentValue (VStr s)) pos st
  = (Normal (AsWrapper w),
     logged st (map (fun m => CallAddContent m (VStr s) (defaultTo pos POS_LAST))
                  members)).
Proof.
  intros (Hv & Hc & k & Hw). unfold add. rewrite Hv, Hc, Hw.
  cbn [negb unwrapContent]. unfold contentGetter. cbn [typeof isType S_].
  unfold bind at 1. unfold bind at 1. unfold ret at 1.
  unfold bind at 1. unfold lift at 1. cbn [iterate].
  rewrite (forEach_ext _
             (fun node => emit (CallAddContent node (VStr s) (defaultTo pos POS_LAST))))
    by reflexivity.
  rewrite forEach_emit. reflexivity.
Qed.

(** X20.  [add(content)] on a valid single target hands the content to the
    inserter as it is, in one call: a node is not cloned (the node itself is
    inserted), a wrapper is replaced by its target, and no type of content
    is refused. *)
Theorem add_to_single_passes_content (w : Wrapper) (content : Content)
    (pos : JSValue) (st : Realm) :
  isValid w = true -> isCollection w = false ->
  add w content pos st
  = (Normal (AsWrapper w),
     logged st [CallAddContent (wraps w) (unwrapContent content)
                  (defaultTo pos POS_LAST)]).
Proof.
  intros Hv Hc. unfold add. rewrite Hv, Hc. reflexivity.
Qed.

(** Cloning a list of nodes one after the other. *)
Lemma cloneValues_nodes (xs : list Node) :
  ∀ st, cloneValues (map VNode xs) st
        = (Normal (map VNode (cloneNodes xs (nextRef st)).1),
           mkRealm (cloneNodes xs (nextRef st)).2 (trace st)).
Proof.
  induction xs as [| x xs IH]; intros st; cbn [map cloneValues cloneNodes].
  - unfold ret. destruct st; reflexivity.
  - unfold bind at 1. unfold cloneValue, cloneDeep. unfold bind at 1.
    destruct (cloneNode x (nextRef st)) as [c next1]. unfold ret at 1.
    unfold bind at 1. rewrite IH. cbn [nextRef trace].
    destruct (cloneNodes xs next1) as [cs next2]. reflexivity.
Qed.

Lemma cloneNodes_fresh (xs : list Node) :
  ∀ next,
    map shapeOf (cloneNodes xs next).1 = map shapeOf xs
    ∧ next ≤ (cloneNodes xs next).2
    ∧ Forall (fun c => Forall (fun r => next ≤ r < (cloneNodes xs next).2) (refsOf c))
        (cloneNodes xs next).1
    ∧ NoDup (map nodeRef (cloneNodes xs next).1).
Proof.
  induction xs as [| x xs IH]; intros next; cbn [cloneNodes].
  - cbn. repeat split; [lia | constructor | constructor].
  - pose proof (cloneNode_fresh x next) as Hx.
    destruct (cloneNode x next) as [c next1]. cbn [fst snd] in Hx.
    destruct Hx as (Hs & Hroot & Hlt & Hrefs).
    specialize (IH next1). destruct (cloneNodes xs next1) as [cs next2].
    cbn [fst snd] in *. destruct IH as (Hs' & Hle & Hall & Hnd).
    split; [| split; [| split]].
    + cbn. rewrite Hs, Hs'. reflexivity.
    + lia.
    + constructor.
      * eapply Forall_impl; [exact Hrefs |]. cbn. intros; lia.
      * eapply Forall_impl; [exact Hall |]. cbn. intros c' Hc'.
        eapply Forall_impl; [exact Hc' |]. cbn. intros; lia.
    + cbn. constructor; [| exact Hnd].
      rewrite Hroot. intros Hin. apply list_elem_of_fmap in Hin as (c' & Heq & Hc').
      rewrite Forall_forall in Hall. specialize (Hall c' Hc').
      destruct c' as [r' k' a' cs']. cbn in *.
      apply Forall_cons in Hall as [Hr _]. lia.
Qed.

(** One iteration of the fan-out of [add()] for a collection content. *)
Lemma add_batch_step (xs : list Node) (k : CollKind) (pos node : JSValue) (st : Realm) :
  (let* c := (let* elems := lift (iterate (VColl k (map VNode xs))) in
              let* clones := cloneValues elems in
              ret (VColl KArray clones)) in
   emit (CallAddContent node c pos)) st
  = (Normal tt,
     mkRealm (cloneNodes xs (nextRef st)).2
       (trace st ++ [CallAddContent node
                       (VColl KArray (map VNode (cloneNodes xs (nextRef st)).1)) pos])).
Proof.
  unfold bind at 1. unfold bind at 1. unfold lift at 1. cbn [iterate].
  unfold bind at 1. rewrite cloneValues_nodes. reflexivity.
Qed.

Lemma add_batch_loop (xs : list Node) (k : CollKind) (pos : JSValue)
    (members : list JSValue) :
  ∀ st, ∃ batches st',
    forEach members (fun node =>
        let* c := (let* elems := lift (iterate (VColl k (map VNode xs))) in
                   let* clones := cloneValues elems in
                   ret (VColl KArray clones)) in
        emit (CallAddContent node c pos)) st
      = (Normal tt, st')
    ∧ trace st' = trace st ++ batchInsertions pos members batches
    ∧ length batches = length members
    ∧ nextRef st ≤ nextRef st'
    ∧ Forall (fun b => map shapeOf b = map shapeOf xs
                       ∧ Forall (fun c => Forall (fun r => nextRef st ≤ r < nextRef st')
                                            (refsOf c)) b) batches
    ∧ NoDup (map nodeRef (concat batches)).
Proof.
  induction members as [| m members IH]; intros st.
  - exists [], st. cbn. unfold ret. rewrite app_nil_r.
    repeat split; auto. constructor.
  - cbn [forEach]. unfold bind at 1. rewrite add_batch_step.
    pose proof (cloneNodes_fresh xs (nextRef st)) as Hfresh.
    destruct (cloneNodes xs (nextRef st)) as [b next1]. cbn [fst snd] in *.
    destruct Hfresh as (Hshape & Hle1 & Hrefs & Hnd1).
    destruct (IH (mkRealm next1
                    (trace st ++ [CallAddContent m (VColl KArray (map VNode b)) pos])))
      as (batches & st' & Hrun & Htrace & Hlen & Hle & Hall & Hnodup).
    cbn [trace nextRef] in *.
    exists (b :: batches), st'. rewrite Hrun.
    split; [reflexivity |]. split; [| split; [| split; [| split]]].
    + rewrite Htrace, <- app_assoc. reflexivity.
    + cbn. rewrite Hlen. reflexivity.
    + lia.
    + constructor.
      * split; [exact Hshape |].
        eapply Forall_impl; [exact Hrefs |]. cbn. intros c Hc.
        eapply Forall_impl; [exact Hc |]. cbn. intros; lia.
      * eapply Forall_impl; [exact Hall |]. cbn. intros b' [Hs Hb'].
        split; [exact Hs |].
        eapply Forall_impl; [exact Hb' |]. cbn. intros c Hc.
        eapply Forall_impl; [exact Hc |]. cbn. intros; lia.
    + cbn [concat]. rewrite map_app. apply NoDup_app. split; [exact Hnd1 |].
      split; [| exact Hnodup].
      intros r Hr1 Hr2.
      apply list_elem_of_fmap in Hr1 as (c1 & -> & Hc1).
      apply list_elem_of_fmap in Hr2 as (c2 & Heq & Hc2).
      apply list_elem_of_In, in_concat in Hc2 as (b' & Hb' & Hc2).
      apply list_elem_of_In in Hb', Hc2.
      rewrite Forall_forall in Hrefs. specialize (Hrefs c1 Hc1).
      rewrite Forall_forall in Hall. destruct (Hall b' Hb') as [_ Hb2].
      rewrite Forall_forall in Hb2. specialize (Hb2 c2 Hc2).
      destruct c1 as [r1 k1 a1 cs1], c2 as [r2 k2 a2 cs2]. cbn in *.
      apply Forall_cons in Hrefs as [Hr1 _]. apply Forall_cons in Hb2 as [Hr2 _].
      lia.
Qed.

(** X21.  [add(list)] with a recognised collection of nodes on a valid
    collection: every member receives an array of its own, made of one deep
    clone of every node of the list, in the order of the list.  All clones
    are new objects, so that none of them is a node of the list, and no two
    of them are the same object, within a member or across members. *)
Theorem add_clones_list_for_each_member (w : Wrapper) (members : list JSValue)
    (k : CollKind) (xs : list Node) (pos : JSValue) (st : Realm) :
  collectionOf w members ->
  U_isCollection (VColl k (map VNode xs)) None = true ->
  Forall (fun r => r < nextRef st) (flat_map refsOf xs) ->
  ∃ batches st',
    add w (ContentValue (VColl k (map VNode xs))) pos st
      = (Normal (AsWrapper w), st')
    ∧ trace st' = trace st
                  ++ batchInsertions (defaultTo pos POS_LAST) members batches
    ∧ length batches = length members
    ∧ Forall (fun b => map shapeOf b = map shapeOf xs) batches
    ∧ NoDup (map nodeRef (concat batches))
    ∧ Forall (fun b => Forall (fun c =>
                Forall (fun r => r ∉ flat_map refsOf xs) (refsOf c)) b) batches.
Proof.
  intros (Hv & Hc & kw & Hw) Hcoll Halloc.
  destruct (add_batch_loop xs k (defaultTo pos POS_LAST) members st)
    as (batches & st' & Hrun & Htrace & Hlen & Hle & Hall & Hnodup).
  exists batches, st'. split; [| split; [| split; [| split; [| split]]]]; auto.
  - unfold add. rewrite Hv, Hc, Hw. cbn [negb unwrapContent].
    unfold contentGetter. cbn [typeof S_ isType asElement]. rewrite Hcoll.
    set (getContent := bind (lift (iterate (VColl k (map VNode xs)))) _) in *.
    unfold bind at 1. unfold bind at 1. unfold ret at 1.
    unfold bind at 1. unfold lift at 1. cbn [iterate].
    rewrite Hrun. reflexivity.
  - eapply Forall_impl; [exact Hall |]. cbn. tauto.
  - eapply Forall_impl; [exact Hall |]. cbn. intros b [_ Hb].
    eapply Forall_impl; [exact Hb |]. cbn. intros c Hc'.
    eapply Forall_impl; [exact Hc' |]. cbn. intros r Hr Hin.
    rewrite Forall_forall in Halloc. specialize (Halloc r Hin). lia.
Qed.

(** X22.  [add(content)] on a valid collection with a content that is
    neither a string, nor an element, nor a recognised collection: a
    TypeError after one [console.error], before the loop over the members,
    so that nothing has been inserted into any member. *)
Theorem add_rejects_other_content (w : Wrapper) (members : list JSValue)
    (content : Content) (pos : JSValue) (st : Realm) :
  collectionOf w members ->
  typeof (unwrapContent content) ≠ TString ->
  asElement (unwrapContent content) = None ->
  U_isCollection (unwrapContent content) None = false ->
  add w content pos st = (Throw (TypeError "Invalid content"), logged st [ConsoleError]).
Proof.
  intros (Hv & Hc & k & Hw) Hs Hel Hcoll. unfold add. rewrite Hv, Hc.
  cbn [negb]. unfold contentGetter. rewrite Hel, Hcoll.
  destruct (typeof (unwrapContent content)); try contradiction; reflexivity.
Qed.

(** X23.  [addHTML] and [addText] on a valid collection call their inserter
    once per member, in member order and with the same text and position
    ([POS.LAST] by default).  No member is skipped, element or not. *)
Theorem addHTML_addText_fan_out (w : Wrapper) (members : list JSValue)
    (html text pos : JSValue) (st : Realm) :
  collectionOf w members ->
  addHTML w html pos st
  = (Normal (AsValue VUndefined),
     logged st (map (fun m => CallAddHTML m html (defaultTo pos POS_LAST)) members))
  ∧ addText w text pos st
    = (Normal (AsValue VUndefined),
       logged st (map (fun m => CallAddText m text (defaultTo pos POS_LAST)) members)).
Proof.
  intros (Hv & Hc & k & Hw). unfold addHTML, addText. rewrite Hv, Hc, Hw.
  cbn [negb]. split.
  - unfold bind at 1. unfold bind at 1. unfold lift at 1. cbn [iterate].
    rewrite forEach_emit. reflexivity.
  - unfold bind at 1. unfold bind at 1. unfold lift at 1. cbn [iterate].
    rewrite forEach_emit. reflexivity.
Qed.

(** X24.  [each(fn)] away from collections.  On a valid single target the
    callback is called exactly once, with index 0 and with the target both
    as [this] and as the node; its value makes the one record returned, and
    an error it throws is the error of [each].  On an invalid instance
    nothing is called and the list is empty.  A value that is not a
    function is refused with a TypeError, on any instance. *)
Theorem each_away_from_collections (w : Wrapper) (fn : JSValue) (st : Realm) :
  (typeof fn = TFunction -> isValid w = true -> isCollection w = false ->
     let st' := logged st [CallFunction fn (wraps w) 0 (wraps w) (wrapperRef w)] in
     each w fn st
     = match callFunction fn (wraps w) 0 (wraps w) w with
       | Normal r => (Normal [mkEachResult fn (wraps w) 0 r], st')
       | Throw e => (Throw e, st')
       end)
  ∧ (typeof fn = TFunction -> isValid w = false -> each w fn st = (Normal [], st))
  ∧ (typeof fn ≠ TFunction ->
     each w fn st = (Throw (TypeError "Invalid function"), st)).
Proof.
  split; [| split].
  - intros Hf Hv Hc st'. unfold each. rewrite Hf, Hv, Hc. cbn [isType F_ negb].
    unfold eachCall, bind, emit, lift, ret.
    destruct (callFunction fn (wraps w) 0 (wraps w) w); reflexivity.
  - intros Hf Hv. unfold each. rewrite Hf, Hv. reflexivity.
  - intros Hf. unfold each. destruct (typeof fn); try contradiction; reflexivity.
Qed.

(** The loop of the [class] setter over members that can all be assigned. *)
Lemma assignEach_all (property : string) (value : JSValue) (nodes : list JSValue) :
  Forall (fun m => assignable m = true) nodes ->
  ∀ done, assignEach nodes property value done
          = (Normal tt, done ++ map (fun m => Assign m property value) nodes).
Proof.
  intros Hall. induction Hall as [| m nodes Hm _ IH]; intros done; cbn [assignEach map].
  - rewrite app_nil_r. reflexivity.
  - unfold assignProp. unfold assignable in Hm. rewrite Hm. rewrite IH.
    rewrite <- app_assoc. reflexivity.
Qed.

(** X25.  The [class] setter.  A value that is not a string is refused with
    a TypeError before anything is assigned, on any instance.  On a valid
    collection the string is assigned to [className] of every member in
    order; at a member that cannot be assigned (null, say) the setter stops
    with a TypeError, the members before it having been changed already. *)
Theorem class_set_behaviour (w : Wrapper) (className : JSValue)
    (done : list Assignment) :
  (typeof className ≠ TString ->
     class_set w className done
     = (Throw (TypeError "Cannot set non-string class name"), done))
  ∧ (∀ members, typeof className = TString -> collectionOf w members ->
       Forall (fun m => assignable m = true) members ->
       class_set w className done
       = (Normal tt, done ++ map (fun m => Assign m "className" className) members))
  ∧ (∀ pre bad post, typeof className = TString ->
       collectionOf w (pre ++ bad :: post) ->
       Forall (fun m => assignable m = true) pre ->
       assignable bad = false ->
       class_set w className done
       = (Throw (TypeError "Cannot set properties"),
          done ++ map (fun m => Assign m "className" className) pre)).
Proof.
  split; [| split].
  - intros Hs. unfold class_set.
    destruct (typeof className); try contradiction; reflexivity.
  - intros members Hs (Hv & Hc & k & Hw) Hall. unfold class_set.
    rewrite Hs, Hv, Hc, Hw. cbn [isType S_ negb iterate].
    apply assignEach_all. exact Hall.
  - intros pre bad post Hs (Hv & Hc & k & Hw) Hall Hbad. unfold class_set.
    rewrite Hs, Hv, Hc, Hw. cbn [isType S_ negb iterate].
    clear -Hall Hbad. revert done.
    induction Hall as [| m pre Hm _ IH]; intros done; cbn [app assignEach map].
    + unfold assignProp. unfold assignable in Hbad. rewrite Hbad.
      rewrite app_nil_r. reflexivity.
    + unfold assignProp at 1. unfold assignable in Hm. rewrite Hm. rewrite IH.
      rewrite <- app_assoc. reflexivity.
Qed.

(** The loop of the [class] getter over members none of which is null or
    undefined. *)
Lemma classLists_elements (nodes : list JSValue) :
  Forall (fun m => nullish m = false) nodes ->
  classLists nodes = Normal (elementsOf nodes).
Proof.
  intros Hall. induction Hall as [| m nodes Hm _ IH]; [reflexivity |].
  cbn [classLists]. rewrite IH. unfold elementsOf. cbn [omap list_omap].
  destruct m; try discriminate Hm; reflexivity.
Qed.

(** X26.  The [class] getter of a valid collection none of whose members is
    null or undefined: the class lists of the element members, in member
    order; members without a class list (text nodes, other values) are left
    out.  On an invalid instance the getter answers null. *)
Theorem class_get_of_collection (w : Wrapper) (members : list JSValue) :
  (collectionOf w members ->
   Forall (fun m => nullish m = false) members ->
   class_get w = Normal (ClassLists (elementsOf members)))
  ∧ (isValid w = false -> class_get w = Normal ClassNull).
Proof.
  split.
  - intros (Hv & Hc & k & Hw) Hall. unfold class_get. rewrite Hv, Hc, Hw.
    cbn [negb iterate]. rewrite (classLists_elements members Hall). reflexivity.
  - intros Hv. unfold class_get. rewrite Hv. reflexivity.
Qed.

(** X27.  The [id] accessors.  On a collection instance the getter answers
    undefined and the setter throws a TypeError without assigning anything.
    The getter does not look at validity: on the invalid instance around
    null it throws a TypeError, where the [class] getter answers null. *)
Theorem id_accessors (w : Wrapper) (v : JSValue) (done : list Assignment) :
  (isCollection w = true ->
     id_get w = Normal VUndefined
     ∧ id_set w v done = (Throw (TypeError "Cannot set 'id' on a collection!"), done))
  ∧ (isCollection w = false -> isValid w = false -> nullish (wraps w) = true ->
     id_get w = Throw (TypeError "Cannot read properties of undefined")
     ∧ class_get w = Normal ClassNull)
  ∧ (∀ n, singleOf w n ->
     id_get w = Normal (VStr (default "" (attribute (attributes n) "id")))).
Proof.
  split; [| split].
  - intros Hc. unfold id_get, id_set. rewrite Hc. split; reflexivity.
  - intros Hc Hv Hnull. unfold id_get, class_get. rewrite Hc, Hv. cbn [negb].
    destruct (wraps w); try discriminate Hnull; split; reflexivity.
  - intros n (Hv & Hc & Hw & Hel). unfold id_get. rewrite Hc, Hw.
    cbn [negb getId]. rewrite Hel. reflexivity.
Qed.

End Mutation.

(** ** The claims on the concrete host *)

Import Fixture.

(** The constructor builds the instances of the fixture. *)
Example construct_listAB :
  construct listAB noOptions realm0 = (Normal (wrapperAB noOptions), realm1).
Proof. reflexivity. Qed.

Example construct_null :
  construct VNull detailed realm0 = (Normal (nothing detailed), realm1).
Proof. reflexivity. Qed.

Lemma wrapperAB_collection (o : Options) :
  collectionOf (wrapperAB o) [VNode nodeA; VNode nodeB].
Proof. split; [reflexivity |]. split; [reflexivity |]. exists KArray. reflexivity. Qed.

(** C1.  [each(fn)] on a valid collection: the loop header of the collection
    branch reads [node.length] of a variable that the method never declares.
    Run on the two-member collection [A, B] with a callable [fn], in a
    global scope that does not bind [node], the method throws a
    ReferenceError before any call of [fn]; no list of records is returned
    and nothing is logged. *)
Theorem each_on_collection_throws :
  each (wrapperAB noOptions) (VFun 0) realm1
  = (Throw (ReferenceError "node is not defined"), realm1).
Proof. apply each_unbound; reflexivity. Qed.

(** C2, as stated, fails: on the invalid instance [new Wrapper(null,
    {queryDetails: true})] the call [get(fn)] with a function [fn] does not
    give what the delegation [query(options, false, fn)] gives.  The guard
    on validity answers first, with a wrapper that has no [$findWith] and no
    [$queryOptions]. *)
Lemma get_function_query_not_delegated :
  get (nothing detailed) (VFun 0) None realm1
  ≠ delegated (nothing detailed) (VFun 0) None realm1.
Proof. vm_compute. intros Heq. discriminate Heq. Qed.

Lemma get_invalid_is_none_witness :
  get (nothing detailed) (VFun 0) None realm1
  = (Normal (plain (AsWrapper (mkWrapper 10 VNull detailed VNull false false))),
     mkRealm 11 []).
Proof.
  exact (get_invalid_is_none (nothing detailed) (VFun 0) None realm1 eq_refl).
Defined.

(** C3, as stated, fails: with [nodeClass: Array] the empty array is an
    instance of the node class, and the instance built around it is valid. *)
Lemma empty_array_valid_for_Array_class :
  ∃ w st', construct (VColl KArray []) arrayClass realm0 = (Normal w, st')
           ∧ isValid w = true.
Proof. eexists. eexists. split; reflexivity. Qed.

Lemma construct_empty_collection_invalid_witness :
  ∃ w st', construct (VColl KNodeList []) keepSingle realm0 = (Normal w, st')
           ∧ isValid w = false ∧ wraps w = VColl KNodeList [].
Proof. apply construct_empty_collection_invalid. reflexivity. Defined.

Lemma construct_single_member_witness :
  (∃ w st', construct (VColl KArray [VNode nodeA]) noOptions realm0 = (Normal w, st')
            ∧ isCollection w = false ∧ wraps w = VNode nodeA ∧ isValid w = true)
  ∧ (∃ w st', construct (VColl KArray [VNode nodeA]) keepSingle realm0 = (Normal w, st')
              ∧ isCollection w = true ∧ wraps w = VColl KArray [VNode nodeA]
              ∧ isValid w = true).
Proof.
  split.
  - destruct (construct_single_member noOptions KArray (VNode nodeA) realm0)
      as [Hon _]; [reflexivity | reflexivity |].
    apply Hon. reflexivity.
  - destruct (construct_single_member keepSingle KArray (VNode nodeA) realm0)
      as [_ Hoff]; [reflexivity | reflexivity |].
    apply Hoff. reflexivity.
Defined.

Lemma children_same_instance_witness :
  children (wrapperAB noOptions) realm1 = (Normal (wrapperAB noOptions), realm1)
  ∧ (let* c := children (wrapperAB noOptions) in children c) realm1
    = children (wrapperAB noOptions) realm1.
Proof. apply children_same_instance. right. split; reflexivity. Defined.

Lemma find_flattens_in_order_witness :
  find (wrapperAB rawResults) (VStr "li") None realm1
  = (Normal (plain (AsValue (VColl KArray [VNode a1; VNode b1; VNode b2]))),
     logged realm1 [CallQuerySelectorAll nodeA "li"; CallQuerySelectorAll nodeB "li"]).
Proof.
  destruct (find_flattens_in_order (wrapperAB rawResults) [VNode nodeA; VNode nodeB]
              "li" None realm1 (wrapperAB_collection rawResults))
    as (_ & Hraw & Hab).
  rewrite (Hraw eq_refl).
  rewrite (Hab nodeA nodeB a1 b1 b2) by reflexivity.
  reflexivity.
Defined.

Lemma get_short_circuits_witness :
  get (wrapperAB rawResults) (VStr "li") None realm1
  = (Normal (plain (AsValue (VNode a1))),
     logged realm1 [CallQuerySelector nodeA "li"]).
Proof.
  apply (get_short_circuits (wrapperAB rawResults) [] [VNode nodeB] nodeA a1 "li"
           None realm1 (wrapperAB_collection rawResults)).
  - reflexivity.
  - reflexivity.
  - intros n Hn. inversion Hn.
  - reflexivity.
Defined.

Lemma add_clones_for_each_member_witness :
  ∃ clones st',
    add (wrapperAB noOptions) (ContentValue (VNode nodeX)) VUndefined realm1
      = (Normal (AsWrapper (wrapperAB noOptions)), st')
    ∧ trace st' = trace realm1
                  ++ insertions (VStr "beforeend") [VNode nodeA; VNode nodeB] clones
    ∧ length clones = 2
    ∧ Forall (fun c => shapeOf c = shapeOf nodeX) clones
    ∧ NoDup (map nodeRef clones)
    ∧ Forall (fun c => Forall (fun r => r ∉ refsOf nodeX) (refsOf c)) clones.
Proof.
  pose proof (add_clones_for_each_member (wrapperAB noOptions)
                [VNode nodeA; VNode nodeB] nodeX VUndefined realm1
                (wrapperAB_collection noOptions)) as Hadd.
  assert (Halloc : Forall (fun r => r < nextRef realm1) (refsOf nodeX)).
  { simpl. repeat (constructor; [lia |]). constructor. }
  exact (Hadd eq_refl Halloc).
Defined.

Lemma getOptions_precedence_witness :
  getOptions (wrapperAB wrapping) (Some compiledRaw) VUndefined VUndefined = compiledRaw
  ∧ props (getOptions (wrapperAB wrapping) (Some rawResults) VUndefined VUndefined)
      !! "wrapQueries" = Some (VBool false)
  ∧ props (getOptions (wrapperAB wrapping) None VUndefined VUndefined)
      !! "wrapQueries" = Some (VBool true).
Proof.
  split; [| split].
  - exact (proj1 (getOptions_precedence (wrapperAB wrapping) (Some compiledRaw)
                    VUndefined VUndefined) compiledRaw eq_refl eq_refl eq_refl).
  - exact (proj2 (getOptions_precedence (wrapperAB wrapping) (Some rawResults)
                    VUndefined VUndefined) (or_introl eq_refl) "wrapQueries").
  - exact (proj2 (getOptions_precedence (wrapperAB wrapping) None
                    VUndefined VUndefined) (or_introl eq_refl) "wrapQueries").
Defined.

Lemma content_methods_return_witness :
  addHTML (nothing noOptions) (VStr "<b>x</b>") VUndefined realm1
    = (Normal (AsWrapper (nothing noOptions)), realm1)
  ∧ (∃ st', addHTML (wrapperAB noOptions) (VStr "<b>x</b>") VUndefined realm1
            = (Normal (AsValue VUndefined), st'))
  ∧ (∃ st', addText (wrapperAB noOptions) (VStr "x") VUndefined realm1
            = (Normal (AsValue VUndefined), st'))
  ∧ (∃ st', add (wrapperAB noOptions) (ContentValue (VStr "x")) VUndefined realm1
            = (Normal (AsWrapper (wrapperAB noOptions)), st')).
Proof.
  destruct (content_methods_return (nothing noOptions) (ContentValue (VStr "x"))
              (VStr "<b>x</b>") (VStr "x") VUndefined realm1) as [Hinvalid _].
  destruct (content_methods_return (wrapperAB noOptions) (ContentValue (VStr "x"))
              (VStr "<b>x</b>") (VStr "x") VUndefined realm1) as [_ Hvalid].
  destruct (Hinvalid eq_refl) as (_ & HaddHTML & _).
  destruct (Hvalid eq_refl) as (Hhtml & Htext & Hadd & _).
  { intros _. exists KArray, [VNode nodeA; VNode nodeB]. reflexivity. }
  split; [exact HaddHTML |]. split; [exact Hhtml |]. split; [exact Htext |].
  apply Hadd. right. left. reflexivity.
Defined.

(** ** The further properties on the concrete host *)

Import Samples.

Lemma wrapperA_single (o : Options) : singleOf (wrapperA o) nodeA.
Proof. repeat split. Qed.

Lemma wrapperB_single (o : Options) : singleOf (wrapperB o) nodeB.
Proof. repeat split. Qed.

Lemma wrapperMixed_collection (o : Options) :
  collectionOf (wrapperMixed o) [VNode nodeA; VNode textNode].
Proof. split; [reflexivity |]. split; [reflexivity |]. exists KArray. reflexivity. Qed.

Lemma wrapperHole_collection (o : Options) :
  collectionOf (wrapperHole o) [VNode nodeA; VNull].
Proof. split; [reflexivity |]. split; [reflexivity |]. exists KArray. reflexivity. Qed.

Lemma searchHost_iterable : collectionsIterable (H := searchHost).
Proof. intros v Hv. destruct v; try discriminate Hv. eexists. reflexivity. Qed.

Lemma construct_tag_name_witness :
  ∃ w, construct (VStr "div") noOptions realm0 = (Normal w, mkRealm 11 [])
     ∧ _wrapped w = VStr "div"
     ∧ wraps w = VNode (mkNode 10 (ElementKind "div") [] [])
     ∧ isValid w = true.
Proof. apply (construct_tag_name "div" noOptions realm0); reflexivity. Defined.

Lemma construct_keeps_larger_collection_witness :
  construct (VColl KNodeList [VNode nodeA; VNode nodeB]) noOptions realm0
  = (Normal (mkWrapper 9 (VColl KNodeList [VNode nodeA; VNode nodeB]) noOptions
               (VColl KNodeList [VNode nodeA; VNode nodeB]) true true),
     realm1).
Proof.
  apply (construct_keeps_larger_collection KNodeList [VNode nodeA; VNode nodeB]
           noOptions realm0).
  - reflexivity.
  - simpl. lia.
Defined.

Lemma construct_collapse_decides_validity_witness :
  (∃ w st', construct (VColl KNodeList [VNode textNode]) noOptions realm0
            = (Normal w, st')
            ∧ isCollection w = false ∧ wraps w = VNode textNode ∧ isValid w = false)
  ∧ (∃ w st', construct (VColl KNodeList [VNode textNode]) keepSingle realm0
              = (Normal w, st')
              ∧ isCollection w = true ∧ wraps w = VColl KNodeList [VNode textNode]
              ∧ isValid w = true).
Proof.
  split.
  - destruct (construct_collapse_decides_validity KNodeList (VNode textNode)
                noOptions realm0) as [Hon _]; [reflexivity | reflexivity |].
    apply Hon. reflexivity.
  - destruct (construct_collapse_decides_validity KNodeList (VNode textNode)
                keepSingle realm0) as [_ Hoff]; [reflexivity | reflexivity |].
    apply Hoff. reflexivity.
Defined.

Lemma getOptions_threads_compiled_witness :
  getOptions (wrapperAB wrapping)
    (Some (getOptions (wrapperAB wrapping) (Some rawResults) VUndefined VUndefined))
    VUndefined (VBool false)
  = getOptions (wrapperAB wrapping) (Some rawResults) VUndefined VUndefined.
Proof. apply getOptions_threads_compiled. reflexivity. Defined.

Lemma children_of_single_stay_collection_witness :
  children (wrapperA noOptions) realm1
  = (Normal (mkWrapper 10 (VColl KHTMLCollection [VNode a1])
               (childOptions (wrapperA noOptions))
               (VColl KHTMLCollection [VNode a1]) true true),
     mkRealm 11 []).
Proof.
  destruct (children_of_single_stay_collection (wrapperA noOptions) nodeA realm1
              (wrapperA_single noOptions)) as (Hkids & _ & _);
    [reflexivity | discriminate |].
  exact Hkids.
Defined.

Lemma children_expanded_flatten_witness :
  children (wrapperAB expanding) realm1
  = (Normal (mkWrapper 10 (VColl KArray [VNode a1; VNode b1; VNode b2])
               (childOptions (wrapperAB expanding))
               (VColl KArray [VNode a1; VNode b1; VNode b2]) true true),
     mkRealm 11 []).
Proof.
  apply (children_expanded_flatten (wrapperAB expanding) [nodeA; nodeB] realm1
           (wrapperAB_collection expanding)).
  - repeat constructor.
  - reflexivity.
  - reflexivity.
  - discriminate.
Defined.

Lemma children_expanded_reject_text_witness :
  children (wrapperMixed expanding) realm1
  = (Throw (TypeError "value is not iterable"), realm1).
Proof.
  apply (children_expanded_reject_text (wrapperMixed expanding) [nodeA] textNode []
           realm1 (wrapperMixed_collection expanding)).
  - repeat constructor.
  - reflexivity.
  - reflexivity.
Defined.

Lemma wrappedChildren_of_single_witness :
  wrappedChildren (wrapperB noOptions) realm1
  = (Normal [mkWrapper 11 (VNode b1) noOptions (VNode b1) false true;
             mkWrapper 12 (VNode b2) noOptions (VNode b2) false true],
     mkRealm 13 []).
Proof.
  pose proof (wrappedChildren_of_single (wrapperB noOptions) nodeB ClsElement realm1
                (wrapperB_single noOptions) eq_refl eq_refl) as Hwrapped.
  assert (Hkids : elementChildren nodeB ≠ []) by discriminate.
  exact (Hwrapped Hkids).
Defined.

Lemma first_last_of_collection_witness :
  firstElement (wrapperAB noOptions) = Normal (VNode nodeA)
  ∧ lastElement (wrapperAB noOptions) = Normal (VNode nodeB).
Proof.
  destruct (first_last_of_collection (wrapperAB noOptions) (VNode nodeA) [VNode nodeB])
    as [Hvalid _].
  apply Hvalid; [apply wrapperAB_collection | reflexivity].
Defined.

Lemma get_index_of_single_witness :
  get (wrapperB rawResults) (VNum 1) None realm1
    = (Normal (plain (AsValue (VNode b2))), realm1)
  ∧ get (wrapperB rawResults) (VNum 2) None realm1
    = (Normal (plain (AsValue VUndefined)), realm1)
  ∧ get (wrapperB rawResults) (VNum (-1)) None realm1
    = (Normal (plain (AsValue VUndefined)), realm1).
Proof.
  split; [| split].
  - destruct (get_index_of_single (wrapperB rawResults) nodeB 1 None realm1
                (wrapperB_single rawResults) eq_refl) as [Hin _].
    apply Hin; [lia | reflexivity].
  - destruct (get_index_of_single (wrapperB rawResults) nodeB 2 None realm1
                (wrapperB_single rawResults) eq_refl) as [_ Hout].
    apply Hout. right. simpl. lia.
  - destruct (get_index_of_single (wrapperB rawResults) nodeB (-1) None realm1
                (wrapperB_single rawResults) eq_refl) as [_ Hout].
    apply Hout. left. lia.
Defined.

Lemma get_index_of_collection_witness :
  get (wrapperAB rawResults) (VNum 1) None realm1
    = (Normal (plain (AsValue (VNode nodeB))), realm1)
  ∧ get (wrapperAB rawResults) (VNum 2) None realm1
    = (Normal (plain (AsValue VUndefined)), realm1).
Proof.
  split.
  - destruct (get_index_of_collection (wrapperAB rawResults) [VNode nodeA; VNode nodeB]
                1 None realm1 (wrapperAB_collection rawResults) eq_refl eq_refl)
      as [Hin _].
    apply Hin; [lia | reflexivity].
  - destruct (get_index_of_collection (wrapperAB rawResults) [VNode nodeA; VNode nodeB]
                2 None realm1 (wrapperAB_collection rawResults) eq_refl eq_refl)
      as [_ Hout].
    apply Hout. right. simpl. lia.
Defined.

Lemma get_selector_without_match_witness :
  get (wrapperAB rawResults) (VStr "table") None realm1
    = (Normal (plain (AsValue VUndefined)),
       logged realm1 [CallQuerySelector nodeA "table"; CallQuerySelector nodeB "table"])
  ∧ get (wrapperA rawResults) (VStr "table") None realm1
    = (Normal (plain (AsValue VNull)), logged realm1 [CallQuerySelector nodeA "table"]).
Proof.
  split.
  - destruct (get_selector_without_match (wrapperAB rawResults) "table" None realm1
                eq_refl) as [Hcoll _].
    apply (Hcoll [VNode nodeA; VNode nodeB] (wrapperAB_collection rawResults)).
    intros n Hn. apply list_elem_of_In in Hn. simpl in Hn.
    destruct Hn as [<- | [<- | []]]; reflexivity.
  - destruct (get_selector_without_match (wrapperA rawResults) "table" None realm1
                eq_refl) as [_ Hsingle].
    apply (Hsingle nodeA (wrapperA_single rawResults)). reflexivity.
Defined.

Lemma get_wraps_with_base_options_witness :
  get (wrapperAB noOptions) (VStr "li") (Some expanding) realm1
  = (Normal (plain (AsWrapper
       (mkWrapper 10 (VNode a1) noOptions (VNode a1) false true))),
     mkRealm 11 [CallQuerySelector nodeA "li"]).
Proof.
  pose proof (get_wraps_with_base_options (wrapperAB noOptions) [] [VNode nodeB]
                nodeA a1 ClsElement "li" (Some expanding) realm1
                (wrapperAB_collection noOptions) eq_refl eq_refl) as Hget.
  assert (Hpre : ∀ n, n ∈ elementsOf [] -> querySelector n "li" = None).
  { intros n Hn. inversion Hn. }
  exact (Hget Hpre eq_refl eq_refl).
Defined.

Lemma find_on_invalid_witness :
  find (nothing rawResults) (VStr "li") None realm1
    = (Normal (plain (AsValue VNull)), realm1)
  ∧ find (nothing rawResults) (VFun 0) None realm1
    = (Normal (plain (AsValue VNull)), realm1)
  ∧ find (nothing rawResults) (VNum 3) None realm1
    = (Throw (TypeError "invalid find() query type"), realm1).
Proof.
  destruct (find_on_invalid (nothing rawResults) (VStr "li") None realm1 eq_refl)
    as (Hstring & _ & _).
  destruct (find_on_invalid (nothing rawResults) (VFun 0) None realm1 eq_refl)
    as (_ & Hfunction & _).
  destruct (find_on_invalid (nothing rawResults) (VNum 3) None realm1 eq_refl)
    as (_ & _ & Hother).
  split; [| split].
  - exact (Hstring eq_refl).
  - exact (Hfunction eq_refl eq_refl).
  - apply Hother; discriminate.
Defined.

Lemma query_without_arguments_witness :
  query (wrapperAB rawResults) [] realm1 = (Normal (plain (AsValue VNull)), realm1).
Proof. exact (query_without_arguments (wrapperAB rawResults) realm1 eq_refl). Defined.

Lemma query_details_per_member_witness :
  query (H := searchHost) (wrapperMixed noOptions)
    [ArgOptions rawDetailed; ArgValue (VStr "li")] realm1
  = (Normal (mkQueryReturn
               (AsValue (VColl KArray [VNode a1]))
               (Some [mkFindResult (VColl KNodeList [VNode a1]) 0])
               (Some rawDetailed)),
     logged realm1 [CallFindWith (VNode nodeA) [ArgValue (VStr "li")]]).
Proof.
  exact (query_details_per_member (H := searchHost) (wrapperMixed noOptions)
           [VNode nodeA; VNode textNode] rawDetailed [ArgValue (VStr "li")] realm1
           (wrapperMixed_collection noOptions) searchHost_iterable eq_refl eq_refl).
Defined.

Lemma add_string_to_each_member_witness :
  add (wrapperMixed noOptions) (ContentValue (VStr "hi")) VUndefined realm1
  = (Normal (AsWrapper (wrapperMixed noOptions)),
     logged realm1 [CallAddContent (VNode nodeA) (VStr "hi") (VStr "beforeend");
                    CallAddContent (VNode textNode) (VStr "hi") (VStr "beforeend")]).
Proof.
  exact (add_string_to_each_member (wrapperMixed noOptions)
           [VNode nodeA; VNode textNode] "hi" VUndefined realm1
           (wrapperMixed_collection noOptions)).
Defined.

Lemma add_to_single_passes_content_witness :
  add (wrapperA noOptions) (ContentWrapper (wrapperB noOptions)) (VStr "afterbegin") realm1
  = (Normal (AsWrapper (wrapperA noOptions)),
     logged realm1 [CallAddContent (VNode nodeA) (VNode nodeB) (VStr "afterbegin")]).
Proof.
  exact (add_to_single_passes_content (wrapperA noOptions)
           (ContentWrapper (wrapperB noOptions)) (VStr "afterbegin") realm1
           eq_refl eq_refl).
Defined.

Lemma add_clones_list_for_each_member_witness :
  ∃ batches st',
    add (wrapperAB noOptions) (ContentValue (VColl KArray [VNode nodeX; VNode b1]))
      VUndefined realm1
      = (Normal (AsWrapper (wrapperAB noOptions)), st')
    ∧ trace st' = trace realm1
                  ++ batchInsertions (VStr "beforeend") [VNode nodeA; VNode nodeB] batches
    ∧ length batches = 2
    ∧ Forall (fun b => map shapeOf b = map shapeOf [nodeX; b1]) batches
    ∧ NoDup (map nodeRef (concat batches))
    ∧ Forall (fun b => Forall (fun c =>
                Forall (fun r => r ∉ flat_map refsOf [nodeX; b1]) (refsOf c)) b) batches.
Proof.
  pose proof (add_clones_list_for_each_member (wrapperAB noOptions)
                [VNode nodeA; VNode nodeB] KArray [nodeX; b1] VUndefined realm1
                (wrapperAB_collection noOptions) eq_refl) as Hadd.
  assert (Halloc : Forall (fun r => r < nextRef realm1) (flat_map refsOf [nodeX; b1])).
  { simpl. repeat (constructor; [lia |]). constructor. }
  exact (Hadd Halloc).
Defined.

Lemma add_rejects_other_content_witness :
  add (wrapperAB noOptions) (ContentValue (VNum 42)) VUndefined realm1
  = (Throw (TypeError "Invalid content"), logged realm1 [ConsoleError]).
Proof.
  apply (add_rejects_other_content (wrapperAB noOptions) [VNode nodeA; VNode nodeB]
           (ContentValue (VNum 42)) VUndefined realm1 (wrapperAB_collection noOptions)).
  - discriminate.
  - reflexivity.
  - reflexivity.
Defined.

Lemma addHTML_addText_fan_out_witness :
  addHTML (wrapperMixed noOptions) (VStr "<b>x</b>") VUndefined realm1
  = (Normal (AsValue VUndefined),
     logged realm1 [CallAddHTML (VNode nodeA) (VStr "<b>x</b>") (VStr "beforeend");
                    CallAddHTML (VNode textNode) (VStr "<b>x</b>") (VStr "beforeend")])
  ∧ addText (wrapperMixed noOptions) (VStr "x") (VStr "afterend") realm1
    = (Normal (AsValue VUndefined),
       logged realm1 [CallAddText (VNode nodeA) (VStr "x") (VStr "afterend");
                      CallAddText (VNode textNode) (VStr "x") (VStr "afterend")]).
Proof.
  split.
  - exact (proj1 (addHTML_addText_fan_out (wrapperMixed noOptions)
                    [VNode nodeA; VNode textNode] (VStr "<b>x</b>") (VStr "x")
                    VUndefined realm1 (wrapperMixed_collection noOptions))).
  - exact (proj2 (addHTML_addText_fan_out (wrapperMixed noOptions)
                    [VNode nodeA; VNode textNode] (VStr "<b>x</b>") (VStr "x")
                    (VStr "afterend") realm1 (wrapperMixed_collection noOptions))).
Defined.

Lemma each_away_from_collections_witness :
  each (wrapperA noOptions) (VFun 0) realm1
    = (Normal [mkEachResult (VFun 0) (VNode nodeA) 0 (VNum 0)],
       logged realm1 [CallFunction (VFun 0) (VNode nodeA) 0 (VNode nodeA) 9])
  ∧ each (nothing noOptions) (VFun 0) realm1 = (Normal [], realm1)
  ∧ each (nothing noOptions) (VStr "f") realm1
    = (Throw (TypeError "Invalid function"), realm1).
Proof.
  destruct (each_away_from_collections (wrapperA noOptions) (VFun 0) realm1)
    as (Hsingle & _ & _).
  destruct (each_away_from_collections (nothing noOptions) (VFun 0) realm1)
    as (_ & Hinvalid & _).
  destruct (each_away_from_collections (nothing noOptions) (VStr "f") realm1)
    as (_ & _ & Hother).
  split; [| split].
  - exact (Hsingle eq_refl eq_refl eq_refl).
  - exact (Hinvalid eq_refl eq_refl).
  - apply Hother. discriminate.
Defined.

Lemma class_set_behaviour_witness :
  class_set (wrapperAB noOptions) (VNum 42) []
    = (Throw (TypeError "Cannot set non-string class name"), [])
  ∧ class_set (wrapperMixed noOptions) (VStr "big") []
    = (Normal tt, [Assign (VNode nodeA) "className" (VStr "big");
                   Assign (VNode textNode) "className" (VStr "big")])
  ∧ class_set (wrapperHole noOptions) (VStr "big") []
    = (Throw (TypeError "Cannot set properties"),
       [Assign (VNode nodeA) "className" (VStr "big")]).
Proof.
  destruct (class_set_behaviour (wrapperAB noOptions) (VNum 42) []) as (Hbad & _ & _).
  destruct (class_set_behaviour (wrapperMixed noOptions) (VStr "big") [])
    as (_ & Hall & _).
  destruct (class_set_behaviour (wrapperHole noOptions) (VStr "big") [])
    as (_ & _ & Hpart).
  split; [| split].
  - apply Hbad. discriminate.
  - apply (Hall [VNode nodeA; VNode textNode] eq_refl (wrapperMixed_collection noOptions)).
    repeat constructor.
  - apply (Hpart [VNode nodeA] VNull [] eq_refl (wrapperHole_collection noOptions)).
    + repeat constructor.
    + reflexivity.
Defined.

Lemma class_get_of_collection_witness :
  class_get (wrapperMixed noOptions) = Normal (ClassLists [nodeA])
  ∧ class_get (nothing noOptions) = Normal ClassNull.
Proof.
  destruct (class_get_of_collection (wrapperMixed noOptions) [VNode nodeA; VNode textNode])
    as [Hcoll _].
  destruct (class_get_of_collection (nothing noOptions) []) as [_ Hinvalid].
  split.
  - apply Hcoll; [apply wrapperMixed_collection | repeat constructor].
  - apply Hinvalid. reflexivity.
Defined.

Lemma id_accessors_witness :
  (id_get (wrapperAB noOptions) = Normal VUndefined
   ∧ id_set (wrapperAB noOptions) (VStr "x") []
     = (Throw (TypeError "Cannot set 'id' on a collection!"), []))
  ∧ (id_get (nothing noOptions) = Throw (TypeError "Cannot read properties of undefined")
     ∧ class_get (nothing noOptions) = Normal ClassNull)
  ∧ id_get (wrapperA noOptions) = Normal (VStr "").
Proof.
  destruct (id_accessors (wrapperAB noOptions) (VStr "x") []) as (Hcoll & _ & _).
  destruct (id_accessors (nothing noOptions) (VStr "x") []) as (_ & Hnull & _).
  destruct (id_accessors (wrapperA noOptions) (VStr "x") []) as (_ & _ & Hsingle).
  split; [| split].
  - apply Hcoll. reflexivity.
  - apply Hnull; reflexivity.
  - apply (Hsingle nodeA (wrapperA_single noOptions)).
Defined.

Lemma first_last_build_instances_witness :
  (first (wrapperAB noOptions) realm1
     = (Normal (mkWrapper 10 (VNode nodeA) noOptions (VNode nodeA) false true),
        mkRealm 11 [])
   ∧ last_ (wrapperAB noOptions) realm1
     = (Normal (mkWrapper 10 (VNode nodeB) noOptions (VNode nodeB) false true),
        mkRealm 11 []))
  ∧ first (nothing noOptions) realm1
    = (Normal (mkWrapper 10 VNull noOptions VNull false false), mkRealm 11 []).
Proof.
  destruct (first_last_build_instances (wrapperAB noOptions) ClsElement realm1 eq_refl)
    as [Hvalid _].
  destruct (first_last_build_instances (nothing noOptions) ClsElement realm1 eq_refl)
    as [_ Hinvalid].
  split.
  - exact (Hvalid nodeA [VNode nodeB] nodeB (wrapperAB_collection noOptions)
             eq_refl eq_refl).
  - exact (proj1 (Hinvalid eq_refl eq_refl)).
Defined.

Lemma function_query_on_collection_witness :
  get (H := searchHost) (wrapperAB rawResults) (VFun 0) None realm1
  = (Normal (plain (AsValue (VColl KArray [VNode a1; VNode b1; VNode b2]))),
     logged realm1
       [CallFind (VNode nodeA) [ArgValue (VBool false); ArgValue (VFun 0)];
        CallFind (VNode nodeB) [ArgValue (VBool false); ArgValue (VFun 0)]]).
Proof.
  exact (proj2 (function_query_on_collection (H := searchHost) (wrapperAB rawResults)
                  [VNode nodeA; VNode nodeB] (VFun 0) None realm1
                  (wrapperAB_collection rawResults) searchHost_iterable eq_refl)
           eq_refl).
Defined.

(** ** The selector loops and the configured node class *)

(** The constructor builds the instance with the node class [Text]. *)
Example construct_nodesMixed :
  construct nodesMixed textClassRaw realm0 = (Normal wrapperTextClass, realm1).
Proof. reflexivity. Qed.

(** C6, as stated, fails when the capability check is the configured one.
    On the valid collection [A, text] with [nodeClass: Text], the element
    [A] fails the capability check and the text node passes it; yet
    [find("li")] asks [A], which supplies the result, and skips the text
    node. *)
Lemma find_skips_by_Element_not_nodeClass :
  find wrapperTextClass (VStr "li") None realm1
    = (Normal (plain (AsValue (VColl KArray [VNode a1]))),
       logged realm1 [CallQuerySelectorAll nodeA "li"])
  ∧ instanceOf (VNode nodeA) (nodeClassOf (options wrapperTextClass)) = Normal false
  ∧ instanceOf (VNode textNode) (nodeClassOf (options wrapperTextClass)) = Normal true
  ∧ ¬ queriesOnlyCapable (options wrapperTextClass)
        (trace (find wrapperTextClass (VStr "li") None realm1).2).
Proof.
  split; [reflexivity |]. split; [reflexivity |]. split; [reflexivity |].
  intros Hclaim.
  specialize (Hclaim nodeA "li" (or_intror (list_elem_of_here _ _))).
  discriminate Hclaim.
Qed.

(** C7, as stated, fails in the same way: on the same instance
    [get("li")] asks [A], which fails the configured capability check, and
    returns the match found below it. *)
Lemma get_skips_by_Element_not_nodeClass :
  get wrapperTextClass (VStr "li") None realm1
    = (Normal (plain (AsValue (VNode a1))),
       logged realm1 [CallQuerySelector nodeA "li"])
  ∧ instanceOf (VNode nodeA) (nodeClassOf (options wrapperTextClass)) = Normal false
  ∧ instanceOf (VNode textNode) (nodeClassOf (options wrapperTextClass)) = Normal true
  ∧ ¬ queriesOnlyCapable (options wrapperTextClass)
        (trace (get wrapperTextClass (VStr "li") None realm1).2).
Proof.
  split; [reflexivity |]. split; [reflexivity |]. split; [reflexivity |].
  intros Hclaim.
  specialize (Hclaim nodeA "li" (or_introl (list_elem_of_here _ _))).
  discriminate Hclaim.
Qed.
